(** * The maze-solving robot of mazeSolverApp.cpp

    A shallow embedding of [namespace Maze] and of the traversal loop of
    [main], followed by the properties of the maze engine.

    Conventions.
    - [size_t] is a 64-bit unsigned integer: a [Z] in [0, 2^64), every
      arithmetic result reduced by [to_size].  [int] is 32-bit; a
      [size_t] passed where an [int] is expected is reduced by [to_int].
    - [sMaze] is a list of rows, each row the list of wall flags its
      storage holds.  An access [sMaze[r][c]] outside that storage has no
      defined behaviour in C++; here it is reported ([None], or the
      [Crash] outcome of the engine) instead of being given a value.
    - The render buffer [sVideo] is modelled for [load] and [print]
      (module [Video]).  The writes of the traversal loop to it and the
      pacing by [clock()] do not influence the traversal and are left out
      of [tick]: a tick of the model is one execution of a timed loop
      body, and its [Crash] outcomes are those of the reads of [sMaze] and
      of the stack.
    - A maze file is the list of its lines.  [readLines] is the reading
      loop of [main] for lines that fit the 256-byte buffer of [getline]
      (fewer than 256 characters, no NUL). *)

From stdpp Require Import base list strings.
From Stdlib Require Import ZArith Lia Ascii.

Local Open Scope Z_scope.

(** ** Machine integers *)

Definition to_size (z : Z) : Z := z mod 2 ^ 64.

Definition to_int (z : Z) : Z := (z + 2 ^ 31) mod 2 ^ 32 - 2 ^ 31.

Module Maze.

(** ** struct Vector2D *)

Record Vector2D := { column : Z; row : Z }.

(** The constructor takes two [int]s and stores them in [size_t] fields. *)
Definition mkVector2D (c r : Z) : Vector2D :=
  {| column := to_size c; row := to_size r |}.

(** The constructor applied to [size_t] arguments, which are first
    converted to [int]. *)
Definition Vector2D_of_sizes (c r : Z) : Vector2D :=
  mkVector2D (to_int c) (to_int r).

(** [operator +]: the sums are [size_t] sums, handed to the constructor. *)
Definition vadd (a b : Vector2D) : Vector2D :=
  Vector2D_of_sizes (to_size (column a + column b)) (to_size (row a + row b)).

(** [operator +=]: updates the fields in place, no constructor involved. *)
Definition vadd_assign (a b : Vector2D) : Vector2D :=
  {| column := to_size (column a + column b); row := to_size (row a + row b) |}.

(** [operator ==] and [operator !=]. *)
Definition veq (a b : Vector2D) : bool :=
  (column a =? column b) && (row a =? row b).

Definition vne (a b : Vector2D) : bool := negb (veq a b).

Definition DIRECTION_DOWN : Vector2D := mkVector2D 0 1.
Definition DIRECTION_UP : Vector2D := mkVector2D 0 (-1).
Definition DIRECTION_LEFT : Vector2D := mkVector2D (-1) 0.
Definition DIRECTION_RIGHT : Vector2D := mkVector2D 1 0.

(** ** struct Bot *)

Inductive Direction := DOWN | UP | LEFT | RIGHT.

Record Bot := { bot_position : Vector2D; bot_direction : Direction }.

Definition directionToVector (d : Direction) : Vector2D :=
  match d with
  | DOWN => DIRECTION_DOWN
  | UP => DIRECTION_UP
  | LEFT => DIRECTION_LEFT
  | RIGHT => DIRECTION_RIGHT
  end.

(** ** struct NodeInformation *)

Record NodeInformation := {
  node_position : Vector2D;
  left : bool; right : bool; up : bool; down : bool;
  wentLeft : bool; wentRight : bool; wentUp : bool; wentDown : bool
}.

Definition set_wentLeft (n : NodeInformation) : NodeInformation :=
  {| node_position := node_position n;
     left := left n; right := right n; up := up n; down := down n;
     wentLeft := true; wentRight := wentRight n;
     wentUp := wentUp n; wentDown := wentDown n |}.

Definition set_wentRight (n : NodeInformation) : NodeInformation :=
  {| node_position := node_position n;
     left := left n; right := right n; up := up n; down := down n;
     wentLeft := wentLeft n; wentRight := true;
     wentUp := wentUp n; wentDown := wentDown n |}.

Definition set_wentUp (n : NodeInformation) : NodeInformation :=
  {| node_position := node_position n;
     left := left n; right := right n; up := up n; down := down n;
     wentLeft := wentLeft n; wentRight := wentRight n;
     wentUp := true; wentDown := wentDown n |}.

Definition set_wentDown (n : NodeInformation) : NodeInformation :=
  {| node_position := node_position n;
     left := left n; right := right n; up := up n; down := down n;
     wentLeft := wentLeft n; wentRight := wentRight n;
     wentUp := wentUp n; wentDown := true |}.

(** ** struct ExitInformation

    [load] fills in the position only and leaves [direction]
    uninitialised: [None] stands for that indeterminate value. *)

Record ExitInformation := {
  exit_position : Vector2D;
  exit_direction : option Direction
}.

(** ** The globals [sMaze], [sRowCount], [sColumnCount] *)

Record Grid := {
  sMaze : list (list bool);
  sRowCount : Z;
  sColumnCount : Z
}.

(** The read [sMaze[r][c]]. *)
Definition cell (m : list (list bool)) (r c : Z) : option bool :=
  flags ← m !! Z.to_nat r; flags !! Z.to_nat c.

(** The write [sMaze[r][c] = v]. *)
Definition store (m : list (list bool)) (r c : Z) (v : bool)
  : option (list (list bool)) :=
  flags ← m !! Z.to_nat r;
  if decide (Z.to_nat c < length flags)%nat
  then Some (<[Z.to_nat r := <[Z.to_nat c := v]> flags]> m)
  else None.

(** ** Maze::load *)

(** Lines 172-179: [sMaze[row] = new bool(false)] for every row.  The
    expression [new bool(false)] creates ONE flag, initialised to false;
    it is not the array form [new bool[sColumnCount]]. *)
Definition allocate (rowCount columnCount : Z) : list (list bool) :=
  replicate (Z.to_nat rowCount) [false].

(** The storage the indexing [sMaze[row][column]] presupposes: a row of
    [columnCount] flags per row.  It is not what [load] allocates; the
    traversal is studied on grids of this shape. *)
Definition rectangular (rowCount columnCount : Z) : list (list bool) :=
  replicate (Z.to_nat rowCount) (replicate (Z.to_nat columnCount) false).

(** Lines 182-201, the loop over [data], from index [iteration] on. *)
Fixpoint load_loop (columnCount : Z) (data : list ascii) (iteration : Z)
    (m : list (list bool)) (results : list ExitInformation)
  : option (list (list bool) * list ExitInformation) :=
  match data with
  | [] => Some (m, results)
  | ch :: data' =>
      if columnCount =? 0 then None else
      let r := iteration / columnCount in
      let c := iteration mod columnCount in
      if Ascii.eqb ch "O" then
        m' ← store m r c false;
        load_loop columnCount data' (iteration + 1) m'
          (results ++ [{| exit_position := Vector2D_of_sizes c r;
                          exit_direction := None |}])
      else
        m' ← store m r c (Ascii.eqb ch "X");
        load_loop columnCount data' (iteration + 1) m' results
  end.

(** [load], over the storage [alloc] hands out; [None] when a write falls
    outside the storage of its row. *)
Definition load_with (alloc : Z → Z → list (list bool))
    (rowCount columnCount : Z) (data : list ascii)
  : option (Grid * list ExitInformation) :=
  '(m, results) ← load_loop columnCount data 0 (alloc rowCount columnCount) [];
  Some ({| sMaze := m; sRowCount := rowCount; sColumnCount := columnCount |},
        results).

(** [load] as written. *)
Definition load := load_with allocate.

(** ** Maze::findEntryPoints

    The function has no braces around its nested statements:
<<
    for (row ...)
        if (row == 0 || row == sRowCount - 1)
            for (column ...)
                if (!sMaze[row][column]) { ...; break; }
        else
            if (!sMaze[row][0]) { ...; break; }
            else if (!sMaze[row][sColumnCount - 1]) { ...; break; }
>>
    In C++ an [else] belongs to the nearest [if] that has none, whatever
    the indentation: the [else] pairs with [if (!sMaze[row][column])]
    inside the column loop, not with the test on [row].  So the two
    side tests run inside the column loop of the top and bottom rows,
    when the scanned cell is a wall, and their [break] leaves the column
    loop; a row strictly between the first and the last has no statement
    to execute. *)

(** The column loop of one boundary row, over the remaining columns. *)
Fixpoint scanColumns (g : Grid) (r : Z) (columns : list Z)
  : option (list ExitInformation) :=
  match columns with
  | [] => Some []
  | c :: rest =>
      w ← cell (sMaze g) r c;
      if negb w then
        Some [{| exit_position := Vector2D_of_sizes c r;
                 exit_direction := Some (if r =? 0 then DOWN else UP) |}]
      else
        w0 ← cell (sMaze g) r 0;
        if negb w0 then
          Some [{| exit_position := Vector2D_of_sizes 0 r;
                   exit_direction := Some RIGHT |}]
        else
          let last := to_size (sColumnCount g - 1) in
          wl ← cell (sMaze g) r last;
          if negb wl then
            Some [{| exit_position := Vector2D_of_sizes last r;
                     exit_direction := Some LEFT |}]
          else scanColumns g r rest
  end.

(** The indices [0, 1, ..., n-1] of a counting loop. *)
Definition indices (n : Z) : list Z := Z.of_nat <$> seq 0 (Z.to_nat n).

(** The row loop, over the remaining rows. *)
Fixpoint scanRows (g : Grid) (rows : list Z) (result : list ExitInformation)
  : option (list ExitInformation) :=
  match rows with
  | [] => Some result
  | r :: rest =>
      if (r =? 0) || (r =? to_size (sRowCount g - 1)) then
        found ← scanColumns g r (indices (sColumnCount g));
        scanRows g rest (result ++ found)
      else scanRows g rest result
  end.

Definition findEntryPoints (g : Grid) : option (list ExitInformation) :=
  scanRows g (indices (sRowCount g)) [].

(** ** The traversal loop of [main] (lines 363-608) *)

(** The loop is in one of two places when a timed body starts: the outer
    body (line 372) or the step-back body of the inner loop (line 514). *)
Inductive Mode := Advancing | Backtracking.

(** [visitedLocations] is a stack; its top is the head of the list. *)
Record State := {
  bot : Bot;
  visitedLocations : list NodeInformation;
  mode : Mode
}.

Inductive Fault :=
  | OutsideGrid (r c : Z)
  | TopOfEmptyStack
  | IndeterminateDirection.

Inductive Outcome :=
  | Running (s : State)
  | Solved (path : list Vector2D)
  | Stuck
  | Crash (f : Fault).

(** A read of [sMaze[r][c]] whose value the rest of the tick depends on. *)
Definition query (g : Grid) (r c : Z) (k : bool → Outcome) : Outcome :=
  match cell (sMaze g) r c with
  | Some w => k w
  | None => Crash (OutsideGrid r c)
  end.

(** [if (guard) flag = sMaze[r][c] ? false : true;] on a flag that is
    false so far. *)
Definition probe (g : Grid) (guard : bool) (r c : Z) (k : bool → Outcome)
  : Outcome :=
  if guard then query g r c (λ w, k (negb w)) else k false.

(** Lines 401-418: the fresh [currentNode] and its four guarded probes. *)
Definition scan (g : Grid) (p : Vector2D) (k : NodeInformation → Outcome)
  : Outcome :=
  probe g (negb (row p =? 0)) (to_size (row p - 1)) (column p) (λ u,
  probe g (negb (row p =? to_size (sRowCount g - 1)))
        (to_size (row p + 1)) (column p) (λ d,
  probe g (negb (column p =? 0)) (row p) (to_size (column p - 1)) (λ l,
  probe g (negb (column p =? to_size (sColumnCount g - 1)))
        (row p) (to_size (column p + 1)) (λ r,
  k {| node_position := p;
       left := l; right := r; up := u; down := d;
       wentLeft := false; wentRight := false;
       wentUp := false; wentDown := false |})))).

(** Lines 455-501: the switch taken when the look-ahead is a wall.  The
    result is the updated node and the new heading, if a branch exists. *)
Definition branch (heading : Direction) (currentNode : NodeInformation)
  : NodeInformation * option Direction :=
  match heading with
  | DOWN | UP =>
      let currentNode := set_wentUp (set_wentDown currentNode) in
      if left currentNode && negb (wentLeft currentNode)
      then (set_wentLeft currentNode, Some LEFT)
      else if right currentNode && negb (wentRight currentNode)
      then (set_wentRight currentNode, Some RIGHT)
      else (currentNode, None)
  | LEFT | RIGHT =>
      let currentNode := set_wentRight (set_wentLeft currentNode) in
      if up currentNode && negb (wentUp currentNode)
      then (currentNode, Some UP)
      else if down currentNode && negb (wentDown currentNode)
      then (currentNode, Some DOWN)
      else (currentNode, None)
  end.

(** Lines 585-599: the switch on the heading that marks the departure. *)
Definition markWent (heading : Direction) (n : NodeInformation)
  : NodeInformation :=
  match heading with
  | DOWN => set_wentDown n
  | UP => set_wentUp n
  | LEFT => set_wentLeft n
  | RIGHT => set_wentRight n
  end.

(** Lines 576-602: [bot.position += direction], then the push of
    [currentNode], whose position is the one the tick started at. *)
Definition move (s : State) (heading : Direction)
    (currentNode : NodeInformation) : State :=
  {| bot := {| bot_position :=
                 vadd_assign (bot_position (bot s)) (directionToVector heading);
               bot_direction := heading |};
     visitedLocations := markWent heading currentNode :: visitedLocations s;
     mode := Advancing |}.

(** Lines 523-546: the if-chain of a step back, on the popped node
    [currentStep] and the node [nextStep] that is the top after the pop. *)
Definition retry (currentStep nextStep : NodeInformation)
  : NodeInformation * option Direction :=
  if down currentStep && negb (wentDown currentStep)
     && vne (node_position nextStep)
            (vadd (node_position currentStep) DIRECTION_DOWN)
  then (set_wentDown currentStep, Some DOWN)
  else if up currentStep && negb (wentUp currentStep)
     && vne (node_position nextStep)
            (vadd (node_position currentStep) DIRECTION_UP)
  then (set_wentUp currentStep, Some UP)
  else if left currentStep && negb (wentLeft currentStep)
     && vne (node_position nextStep)
            (vadd (node_position currentStep) DIRECTION_LEFT)
  then (set_wentLeft currentStep, Some LEFT)
  else if right currentStep && negb (wentRight currentStep)
     && vne (node_position nextStep)
            (vadd (node_position currentStep) DIRECTION_RIGHT)
  then (set_wentRight currentStep, Some RIGHT)
  else (currentStep, None).

(** The test of the inner [while] (line 508) with no branch found, and
    the [if (!foundBranch)] behind the loop (line 564). *)
Definition keepBacktracking (s : State) : Outcome :=
  match visitedLocations s with
  | [] => Stuck
  | _ :: _ => Running s
  end.

(** Lines 517-555: one step back.  [top()] is called right after [pop()]
    with no test in between. *)
Definition stepBack (s : State) : Outcome :=
  match visitedLocations s with
  | [] => Stuck
  | currentStep :: rest =>
      match rest with
      | [] => Crash TopOfEmptyStack
      | nextStep :: _ =>
          match retry currentStep nextStep with
          | (currentStep', Some heading) =>
              Running {| bot := {| bot_position := node_position currentStep';
                                   bot_direction := heading |};
                         visitedLocations := currentStep' :: rest;
                         mode := Advancing |}
          | (currentStep', None) =>
              keepBacktracking
                {| bot := {| bot_position := node_position currentStep';
                             bot_direction := bot_direction (bot s) |};
                   visitedLocations := rest;
                   mode := Backtracking |}
          end
      end
  end.

(** One timed body.  [exits] is the vector [entrances] after line 352. *)
Definition tick (g : Grid) (exits : list ExitInformation) (s : State)
  : Outcome :=
  match mode s with
  | Backtracking => stepBack s
  | Advancing =>
      let p := bot_position (bot s) in
      if existsb (λ e, veq (exit_position e) p) exits
      then Solved (node_position <$> visitedLocations s)
      else
        scan g p (λ currentNode,
        let lookAhead := vadd p (directionToVector (bot_direction (bot s))) in
        query g (row lookAhead) (column lookAhead) (λ wall,
        if wall then
          match branch (bot_direction (bot s)) currentNode with
          | (currentNode', Some heading) =>
              Running (move s heading currentNode')
          | (_, None) =>
              keepBacktracking
                {| bot := bot s;
                   visitedLocations := visitedLocations s;
                   mode := Backtracking |}
          end
        else Running (move s (bot_direction (bot s)) currentNode)))
  end.

(** The outcome after at most [n] ticks; a final outcome stays. *)
Fixpoint run (g : Grid) (exits : list ExitInformation) (n : nat) (s : State)
  : Outcome :=
  match n with
  | O => Running s
  | S n' =>
      match tick g exits s with
      | Running s' => run g exits n' s'
      | o => o
      end
  end.

(** ** [main] up to the loop (lines 303-352) *)

(** Lines 307-328, on the lines of the file.  [readLines] hands each line
    whole to the loop body: it is the loop for files whose lines
    [getline (currentLine, 256)] and [strlen] deliver whole, that is, lines
    of fewer than 256 characters without a NUL ([fitsBuffer] below).  A
    longer line would be cut to 255 characters and end the loop; the
    closed forms of the reading loop carry [fitsBuffer] as a hypothesis. *)
Fixpoint readLines (lines : list string) (columnCount rowCount : Z)
    (fileBuffer : list ascii) : option (Z * Z * list ascii) :=
  match lines with
  | [] => Some (columnCount, rowCount, fileBuffer)
  | currentLine :: rest =>
      let currentLineLength := Z.of_nat (String.length currentLine) in
      if currentLineLength =? 0
      then readLines rest columnCount rowCount fileBuffer
      else if columnCount =? 0
      then readLines rest currentLineLength (to_size (rowCount + 1))
             (fileBuffer ++ String.list_ascii_of_string currentLine)
      else if negb (columnCount =? currentLineLength)
      then None
      else readLines rest columnCount (to_size (rowCount + 1))
             (fileBuffer ++ String.list_ascii_of_string currentLine)
  end.

(** Line 337. *)
Definition tooFewOpenings (entrances userExits : list ExitInformation) : bool :=
  (length entrances =? 0)%nat
  || ((length entrances =? 1)%nat && (length userExits =? 0)%nat).

Inductive Exit :=
  | InconsistentProportions
  | InsufficientOpenings
  | StorageFault
  | Traversal (o : Outcome).

(** Lines 335-363 and the loop, run for at most [fuel] ticks. *)
Definition solve (g : Grid) (userExits : list ExitInformation) (fuel : nat)
  : Exit :=
  match findEntryPoints g with
  | None => StorageFault
  | Some entrances =>
      if tooFewOpenings entrances userExits then InsufficientOpenings
      else
        match entrances with
        | [] => InsufficientOpenings
        | first :: others =>
            match exit_direction first with
            | None => Traversal (Crash IndeterminateDirection)
            | Some heading =>
                Traversal
                  (run g (others ++ userExits) fuel
                     {| bot := {| bot_position := exit_position first;
                                  bot_direction := heading |};
                        visitedLocations := [];
                        mode := Advancing |})
            end
        end
  end.

(** Lines 303-330: the file read and loaded. *)
Inductive Loaded :=
  | BadProportions
  | BadStorage
  | MazeData (g : Grid) (userExits : list ExitInformation).

Definition loadFile (alloc : Z → Z → list (list bool)) (lines : list string)
  : Loaded :=
  match readLines lines 0 0 [] with
  | None => BadProportions
  | Some (columnCount, rowCount, fileBuffer) =>
      match load_with alloc rowCount columnCount fileBuffer with
      | None => BadStorage
      | Some (g, userExits) => MazeData g userExits
      end
  end.

Definition main_with (alloc : Z → Z → list (list bool))
    (lines : list string) (fuel : nat) : Exit :=
  match loadFile alloc lines with
  | BadProportions => InconsistentProportions
  | BadStorage => StorageFault
  | MazeData g userExits => solve g userExits fuel
  end.

(** [main] as written, and [main] over rectangular storage. *)
Definition main := main_with allocate.
Definition main_rect := main_with rectangular.

End Maze.

Import Maze.

(** * The render buffer: [sVideo], its part of [load], and [print] *)

Module Video.

(** The accesses [a[r][c]] and [a[r][c] = x] on rows of any element type;
    [cell] and [store] are their instances for [sMaze]. *)
Definition read2 {A} (a : list (list A)) (r c : Z) : option A :=
  elements ← a !! Z.to_nat r; elements !! Z.to_nat c.

Definition write2 {A} (a : list (list A)) (r c : Z) (x : A)
  : option (list (list A)) :=
  elements ← a !! Z.to_nat r;
  if decide (Z.to_nat c < length elements)%nat
  then Some (<[Z.to_nat r := <[Z.to_nat c := x]> elements]> a)
  else None.

(** Line 178: [sVideo[row] = new char(' ')], one character per row, and
    the rows of [sColumnCount] blanks that the indexing presupposes. *)
Definition allocateVideo (rowCount columnCount : Z) : list (list ascii) :=
  replicate (Z.to_nat rowCount) [" "%char].

Definition rectangularVideo (rowCount columnCount : Z) : list (list ascii) :=
  replicate (Z.to_nat rowCount) (replicate (Z.to_nat columnCount) " "%char).

(** Lines 182-201 with both buffers: an 'O' is written to [sVideo] as
    well, the other characters to [sMaze] only. *)
Fixpoint loadBoth_loop (columnCount : Z) (data : list ascii) (iteration : Z)
    (m : list (list bool)) (v : list (list ascii))
    (results : list ExitInformation)
  : option (list (list bool) * list (list ascii) * list ExitInformation) :=
  match data with
  | [] => Some (m, v, results)
  | ch :: data' =>
      if columnCount =? 0 then None else
      let r := iteration / columnCount in
      let c := iteration mod columnCount in
      if Ascii.eqb ch "O" then
        m' ← store m r c false;
        v' ← write2 v r c "O"%char;
        loadBoth_loop columnCount data' (iteration + 1) m' v'
          (results ++ [{| exit_position := Vector2D_of_sizes c r;
                          exit_direction := None |}])
      else
        m' ← store m r c (Ascii.eqb ch "X");
        loadBoth_loop columnCount data' (iteration + 1) m' v results
  end.

(** Lines 204-211: the wall data copied to the video, the cells showing
    'O' left alone. *)
Fixpoint populateColumns (m : list (list bool)) (v : list (list ascii))
    (r : Z) (columns : list Z) : option (list (list ascii)) :=
  match columns with
  | [] => Some v
  | c :: rest =>
      shown ← read2 v r c;
      if Ascii.eqb shown "O" then populateColumns m v r rest
      else
        w ← cell m r c;
        v' ← write2 v r c (if w : bool then "X" else " ")%char;
        populateColumns m v' r rest
  end.

Fixpoint populateRows (m : list (list bool)) (v : list (list ascii))
    (rows : list Z) (columnCount : Z) : option (list (list ascii)) :=
  match rows with
  | [] => Some v
  | r :: rest =>
      v' ← populateColumns m v r (indices columnCount);
      populateRows m v' rest columnCount
  end.

(** [load] with both buffers. *)
Definition loadBoth (alloc : Z → Z → list (list bool))
    (allocVideo : Z → Z → list (list ascii))
    (rowCount columnCount : Z) (data : list ascii)
  : option (Grid * list (list ascii) * list ExitInformation) :=
  '(m, v, results) ←
    loadBoth_loop columnCount data 0 (alloc rowCount columnCount)
      (allocVideo rowCount columnCount) [];
  v' ← populateRows m v (indices rowCount) columnCount;
  Some ({| sMaze := m; sRowCount := rowCount; sColumnCount := columnCount |},
        v', results).

(** [print] (lines 136-147): the lines written to [cout]. *)
Fixpoint printColumns (v : list (list ascii)) (r : Z) (columns : list Z)
  : option (list ascii) :=
  match columns with
  | [] => Some []
  | c :: rest =>
      ch ← read2 v r c;
      line ← printColumns v r rest;
      Some (ch :: line)
  end.

Fixpoint printRows (v : list (list ascii)) (rows : list Z) (columnCount : Z)
  : option (list (list ascii)) :=
  match rows with
  | [] => Some []
  | r :: rest =>
      line ← printColumns v r (indices columnCount);
      lines ← printRows v rest columnCount;
      Some (line :: lines)
  end.

Definition print (v : list (list ascii)) (rowCount columnCount : Z)
  : option (list (list ascii)) :=
  printRows v (indices rowCount) columnCount.

End Video.

(** * Sample mazes *)

Module Samples.
Local Open Scope string_scope.

(** The bottom row has two openings; the scan registers the first one
    only, the corridor of column 1 ends on the other. *)
Definition unregistered_opening : list string :=
  ["X X";
   "X X";
   "  X"].

(** Openings on the left and right sides only. *)
Definition side_openings : list string :=
  ["XXXX";
   " XXX";
   "XXX ";
   "XXXX"].

(** No opening on the boundary, two marked exits inside. *)
Definition marked_inside : list string :=
  ["XXXX";
   "XOOX";
   "XXXX"].

(** A dead end one step behind the entrance. *)
Definition short_dead_end : list string :=
  ["X XX";
   "X XX";
   "XXX "].

(** A dead end below a junction whose side branch leads to a marked exit. *)
Definition dead_end_then_exit : list string :=
  ["X XX";
   "X XX";
   "X  O";
   "X XX";
   "XXXX"].

(** A ring of open cells below the entrance; the second opening, in the
    bottom right corner, is walled off. *)
Definition ring : list string :=
  ["XX XXX";
   "XX XXX";
   "X    X";
   "X XX X";
   "X    X";
   "XXXXX "].

(** A corridor from the top row to the bottom row. *)
Definition corridor : list string :=
  ["X X";
   "X X";
   "X X"].

End Samples.

(** * Vocabulary of the properties *)

(** An opening found in the first or in the last row. *)
Definition boundaryRow (g : Grid) (e : ExitInformation) : Prop :=
  ∃ r c, exit_position e = Vector2D_of_sizes c r
         ∧ (r = 0 ∨ r = to_size (sRowCount g - 1)).

(** Coordinates that an [int] holds. *)
Definition small (p : Vector2D) : Prop :=
  0 ≤ column p < 2 ^ 31 ∧ 0 ≤ row p < 2 ^ 31.

(** A grid whose storage has fewer than 2^31 rows and columns. *)
Definition smallGrid (g : Grid) : Prop :=
  Z.of_nat (length (sMaze g)) < 2 ^ 31
  ∧ Forall (λ flags : list bool, Z.of_nat (length flags) < 2 ^ 31) (sMaze g).

(** A rectangular grid: [sRowCount] rows of [sColumnCount] flags. *)
Definition wellFormed (g : Grid) : Prop :=
  sRowCount g = Z.of_nat (length (sMaze g))
  ∧ Forall (λ flags : list bool, sColumnCount g = Z.of_nat (length flags))
           (sMaze g)
  ∧ sRowCount g < 2 ^ 31 ∧ sColumnCount g < 2 ^ 31.

(** A cell of the grid that is not a wall. *)
Definition openCell (g : Grid) (p : Vector2D) : Prop :=
  0 ≤ column p ∧ 0 ≤ row p
  ∧ cell (sMaze g) (row p) (column p) = Some false.

(** Two cells one unit apart in exactly one axis. *)
Definition adjacent (p q : Vector2D) : Prop :=
  (column p = column q ∧ (row p = row q + 1 ∨ row q = row p + 1))
  ∨ (row p = row q ∧ (column p = column q + 1 ∨ column q = column p + 1)).

(** Consecutive cells are adjacent. *)
Fixpoint stepwise (path : list Vector2D) : Prop :=
  match path with
  | p :: (q :: _) as rest => adjacent p q ∧ stepwise rest
  | _ => True
  end.

(** Consecutive cells are adjacent or the same cell. *)
Fixpoint linked (path : list Vector2D) : Prop :=
  match path with
  | p :: (q :: _) as rest => (p = q ∨ adjacent p q) ∧ linked rest
  | _ => True
  end.

(** The state [main] enters the loop with. *)
Definition initial (p : Vector2D) (heading : Direction) : State :=
  {| bot := {| bot_position := p; bot_direction := heading |};
     visitedLocations := [];
     mode := Advancing |}.

(** The flags of a node, by direction. *)
Definition isOpen (d : Direction) (n : NodeInformation) : bool :=
  match d with
  | DOWN => down n | UP => up n | LEFT => left n | RIGHT => right n
  end.

Definition hasGone (d : Direction) (n : NodeInformation) : bool :=
  match d with
  | DOWN => wentDown n | UP => wentUp n
  | LEFT => wentLeft n | RIGHT => wentRight n
  end.

(** The two orders of preference. *)
Definition perpendicular (heading : Direction) : list Direction :=
  match heading with
  | DOWN | UP => [LEFT; RIGHT]
  | LEFT | RIGHT => [UP; DOWN]
  end.


(** The robot's cell followed by the cells of the stack, top first. *)
Definition trail (s : State) : list Vector2D :=
  bot_position (bot s) :: (node_position <$> visitedLocations s).

(** Every cell of the trail is open and consecutive cells are adjacent or
    equal. *)
Definition sound (g : Grid) (s : State) : Prop :=
  Forall (openCell g) (trail s) ∧ linked (trail s).

(** The cell a guarded probe of [scan] reads, and its guard. *)
Definition neighbour (p : Vector2D) (d : Direction) : Vector2D :=
  match d with
  | UP => {| column := column p; row := to_size (row p - 1) |}
  | DOWN => {| column := column p; row := to_size (row p + 1) |}
  | LEFT => {| column := to_size (column p - 1); row := row p |}
  | RIGHT => {| column := to_size (column p + 1); row := row p |}
  end.

Definition guard (g : Grid) (p : Vector2D) (d : Direction) : bool :=
  match d with
  | UP => negb (row p =? 0)
  | DOWN => negb (row p =? to_size (sRowCount g - 1))
  | LEFT => negb (column p =? 0)
  | RIGHT => negb (column p =? to_size (sColumnCount g - 1))
  end.

(** The cell [q] is inside the storage and is not a wall. *)
Definition isFree (g : Grid) (q : Vector2D) : bool :=
  match cell (sMaze g) (row q) (column q) with
  | Some false => true
  | _ => false
  end.

(** What [scan] hands to its continuation: a fresh node for [p] whose
    four flags tell the guarded probes. *)
Definition scanned (g : Grid) (p : Vector2D) (n : NodeInformation) : Prop :=
  node_position n = p
  ∧ (∀ d, hasGone d n = false)
  ∧ (∀ d, isOpen d n = guard g p d && isFree g (neighbour p d)).

(** The ticks of the engine as a step relation. *)
Inductive ticked (g : Grid) (exits : list ExitInformation) (s : State)
  : Outcome → Prop :=
  | ticked_crash f : ticked g exits s (Crash f)
  | ticked_solved :
      mode s = Advancing →
      existsb (λ e, veq (exit_position e) (bot_position (bot s))) exits = true →
      ticked g exits s (Solved (node_position <$> visitedLocations s))
  | ticked_straight n ahead :
      mode s = Advancing →
      scanned g (bot_position (bot s)) n →
      ahead = vadd (bot_position (bot s))
                (directionToVector (bot_direction (bot s))) →
      cell (sMaze g) (row ahead) (column ahead) = Some false →
      ticked g exits s (Running (move s (bot_direction (bot s)) n))
  | ticked_branch n n' heading :
      mode s = Advancing →
      scanned g (bot_position (bot s)) n →
      branch (bot_direction (bot s)) n = (n', Some heading) →
      ticked g exits s (Running (move s heading n'))
  | ticked_blocked n n' :
      mode s = Advancing →
      branch (bot_direction (bot s)) n = (n', None) →
      ticked g exits s (keepBacktracking
                  {| bot := bot s; visitedLocations := visitedLocations s;
                     mode := Backtracking |})
  | ticked_back_branch currentStep nextStep rest currentStep' heading :
      mode s = Backtracking →
      visitedLocations s = currentStep :: nextStep :: rest →
      retry currentStep nextStep = (currentStep', Some heading) →
      ticked g exits s (Running
                  {| bot := {| bot_position := node_position currentStep';
                               bot_direction := heading |};
                     visitedLocations := currentStep' :: nextStep :: rest;
                     mode := Advancing |})
  | ticked_back_pop currentStep nextStep rest currentStep' :
      mode s = Backtracking →
      visitedLocations s = currentStep :: nextStep :: rest →
      retry currentStep nextStep = (currentStep', None) →
      ticked g exits s (Running
                  {| bot := {| bot_position := node_position currentStep';
                               bot_direction := bot_direction (bot s) |};
                     visitedLocations := nextStep :: rest;
                     mode := Backtracking |})
  | ticked_back_empty :
      mode s = Backtracking → visitedLocations s = [] → ticked g exits s Stuck.

(** The top of the stack records the robot's cell, or the cell one step
    behind the robot along its heading. *)
Definition topRecord (s : State) : Prop :=
  match visitedLocations s with
  | [] => True
  | top :: _ =>
      bot_position (bot s) = node_position top
      ∨ bot_position (bot s)
        = vadd_assign (node_position top)
            (directionToVector (bot_direction (bot s)))
  end.

(** The grid and the exits that [main] hands to the loop for a maze file
    read over rectangular storage. *)
Definition gridOf (lines : list string) : Grid :=
  match loadFile rectangular lines with
  | MazeData g _ => g
  | _ => {| sMaze := []; sRowCount := 0; sColumnCount := 0 |}
  end.

Definition exitsOf (lines : list string) : list ExitInformation :=
  match loadFile rectangular lines with
  | MazeData g userExits =>
      match findEntryPoints g with
      | Some (_ :: others) => others ++ userExits
      | _ => []
      end
  | _ => []
  end.

(** The cell [k] steps ahead of [p] in direction [d]. *)
Fixpoint ahead (p : Vector2D) (d : Direction) (k : nat) : Vector2D :=
  match k with
  | O => p
  | S k' => vadd_assign (ahead p d k') (directionToVector d)
  end.

(** The goal check of a tick (lines 376-377). *)
Definition isExit (exits : list ExitInformation) (p : Vector2D) : bool :=
  existsb (λ e, veq (exit_position e) p) exits.

(** The robot, entering at [p] with heading [heading], leaves [p] in
    direction [d]: it heads that way, or its look-ahead is a wall of the
    grid and [d] is the first free perpendicular direction. *)
Definition entersAlong (g : Grid) (p : Vector2D) (heading d : Direction)
  : Prop :=
  heading = d
  ∨ (cell (sMaze g) (row (vadd p (directionToVector heading)))
          (column (vadd p (directionToVector heading))) = Some true
     ∧ List.find (λ d', guard g p d' && isFree g (neighbour p d'))
                 (perpendicular heading) = Some d).


(** The engine has ended. *)
Definition halted (o : Outcome) : Prop :=
  o = Stuck ∨ ∃ path, o = Solved path.

(** The robot on the corner (1,2) of [Samples.ring], heading left. *)
Definition lapState (stack : list NodeInformation) : State :=
  {| bot := {| bot_position := {| column := 1; row := 2 |};
               bot_direction := LEFT |};
     visitedLocations := stack;
     mode := Advancing |}.

(** A state with an empty stack is the state [start]; an Advancing state
    satisfies [topRecord]. *)
Definition tracked (start s : State) : Prop :=
  (visitedLocations s = [] → s = start)
  ∧ (mode s = Advancing → topRecord s).

(** The non-empty lines of a file, the length of the first of them, the
    test that all have that length, and their concatenation. *)
Definition nonEmptyLines (lines : list string) : list string :=
  List.filter (λ l, negb (Z.of_nat (String.length l) =? 0)) lines.

Definition lineWidth (lines : list string) : Z :=
  match nonEmptyLines lines with
  | [] => 0
  | l :: _ => Z.of_nat (String.length l)
  end.

Definition uniformLines (lines : list string) : bool :=
  forallb (λ l, Z.of_nat (String.length l) =? lineWidth lines)
          (nonEmptyLines lines).

Definition bufferOf (lines : list string) : list ascii :=
  concat (String.list_ascii_of_string <$> nonEmptyLines lines).

(** A line that [getline (currentLine, 256)] stores whole and [strlen]
    measures whole (lines 306-311): fewer than 256 characters, none of
    them NUL. *)
Definition fitsBuffer (line : string) : bool :=
  (String.length line <? 256)%nat
  && forallb (λ ch, negb (Ascii.eqb ch "000"%char))
             (String.list_ascii_of_string line).

(** Storage of [rowCount] rows of [columnCount] elements. *)
Definition shape {A} (a : list (list A)) (rowCount columnCount : Z) : Prop :=
  Z.of_nat (length a) = rowCount
  ∧ Forall (λ elements : list A, Z.of_nat (length elements) = columnCount) a.

(** What the screen shows for a character of the file. *)
Definition display (ch : ascii) : ascii :=
  if Ascii.eqb ch "O" then "O"%char
  else if Ascii.eqb ch "X" then "X"%char else " "%char.

(** The exit that [load] records for the character of index [i]. *)
Definition markedExit (columnCount i : Z) : ExitInformation :=
  {| exit_position := Vector2D_of_sizes (i mod columnCount) (i / columnCount);
     exit_direction := None |}.

(** The index of the first or of the last row. *)
Definition boundaryIndex (g : Grid) (r : Z) : Prop :=
  r = 0 ∨ r = to_size (sRowCount g - 1).

(** An open cell of the first or of the last row. *)
Definition onBoundary (g : Grid) (e : ExitInformation) : Prop :=
  openCell g (exit_position e)
  ∧ (row (exit_position e) = 0 ∨ row (exit_position e) = sRowCount g - 1).

(** * Loading *)

Section LoadFacts.

Lemma allocate_rows rowCount columnCount (flags : list bool) :
  flags ∈ allocate rowCount columnCount → length flags = 1%nat.
Proof.
  unfold allocate. intros Hin.
  apply elem_of_replicate in Hin as [-> _]. reflexivity.
Qed.

Lemma store_row_lengths (m m' : list (list bool)) r c v :
  store m r c v = Some m' →
  ∀ i, length <$> (m' !! i) = length <$> (m !! i).
Proof.
  unfold store. intros Hst i.
  destruct (m !! Z.to_nat r) as [flags|] eqn:Hrow; simpl in Hst; [|discriminate].
  destruct (decide (Z.to_nat c < length flags)%nat); [|discriminate].
  injection Hst as <-.
  destruct (decide (i = Z.to_nat r)) as [->|Hne].
  - rewrite list_lookup_insert_eq by (eapply lookup_lt_Some; eassumption).
    rewrite Hrow. simpl. by rewrite length_insert.
  - by rewrite list_lookup_insert_ne.
Qed.

Lemma store_outside_row (m : list (list bool)) r c v :
  (∀ flags, m !! Z.to_nat r = Some flags → (length flags ≤ Z.to_nat c)%nat) →
  store m r c v = None.
Proof.
  unfold store. intros Hlen.
  destruct (m !! Z.to_nat r) as [flags|] eqn:Hrow; simpl; [|reflexivity].
  specialize (Hlen flags eq_refl).
  destruct (decide (Z.to_nat c < length flags)%nat); [lia|reflexivity].
Qed.

End LoadFacts.

(** C7 (code defect, lines 175-179).  [load] gives every row the storage
    of a single flag ([new bool(false)]), not of [sColumnCount] flags: for
    every source of at least two columns and at least two characters the
    write [sMaze[0][1]] of the second character falls outside the storage
    of row 0.  The grid that [load] builds is not rectangular. *)
Theorem load_writes_outside_row_storage rowCount columnCount (data : list ascii) :
  2 ≤ columnCount → (2 ≤ length data)%nat →
  (∀ flags, flags ∈ allocate rowCount columnCount → length flags = 1%nat)
  ∧ load rowCount columnCount data = None.
Proof.
  intros Hcc Hdata. split; [apply allocate_rows|].
  destruct data as [|a [|b data]]; simpl in Hdata; try lia.
  unfold load, load_with.
  assert (Hnz : (columnCount =? 0) = false) by (apply Z.eqb_neq; lia).
  assert (Hsecond : ∀ m results,
    (∀ flags, m !! 0%nat = Some flags → length flags = 1%nat) →
    load_loop columnCount (b :: data) (0 + 1) m results = None).
  { intros m results Hm. simpl. rewrite Hnz.
    assert (Hst : ∀ v, store m ((0 + 1) / columnCount)
                         ((0 + 1) mod columnCount) v = None).
    { intros v. apply store_outside_row.
      rewrite Z.div_small, Z.mod_small by lia. simpl.
      intros flags Hf. rewrite (Hm _ Hf). lia. }
    destruct (Ascii.eqb b "O"); rewrite Hst; reflexivity. }
  assert (Hfirst : ∀ m' v,
    store (allocate rowCount columnCount) (0 / columnCount)
          (0 mod columnCount) v = Some m' →
    ∀ flags, m' !! 0%nat = Some flags → length flags = 1%nat).
  { intros m' v Hst flags Hf.
    pose proof (store_row_lengths _ _ _ _ _ Hst 0%nat) as Hl.
    rewrite Hf in Hl. simpl in Hl.
    destruct (allocate rowCount columnCount !! 0%nat) as [old|] eqn:Hold;
      simpl in Hl; [|discriminate].
    injection Hl as ->. eapply allocate_rows, list_elem_of_lookup_2, Hold. }
  remember (b :: data) as rest eqn:Hrest.
  cbn [load_loop]. rewrite Hnz.
  destruct (Ascii.eqb a "O").
  - destruct (store _ _ _ false) as [m'|] eqn:Hst; [|reflexivity].
    cbn [mbind option_bind]. rewrite Hsecond; [reflexivity|]. eapply Hfirst, Hst.
  - destruct (store _ _ _ (Ascii.eqb a "X")) as [m'|] eqn:Hst; [|reflexivity].
    cbn [mbind option_bind]. rewrite Hsecond; [reflexivity|]. eapply Hfirst, Hst.
Qed.

Lemma load_writes_outside_row_storage_witness :
  (2 ≤ 2 ∧ (2 ≤ length (String.list_ascii_of_string "XX"))%nat)
  ∧ load 1 2 (String.list_ascii_of_string "XX") = None
  ∧ main ["XX"%string] 0 = StorageFault.
Proof.
  split; [split; [lia | simpl; lia]|].
  split; [|reflexivity].
  apply (load_writes_outside_row_storage 1 2 (String.list_ascii_of_string "XX"));
    [lia | simpl; lia].
Defined.

(** * The boundary scan *)

Section ScanFacts.

Variable g : Grid.

(** Whatever the column loop of a row returns lies in that row. *)
Lemma scanColumns_row r columns found e :
  scanColumns g r columns = Some found → e ∈ found →
  ∃ c, exit_position e = Vector2D_of_sizes c r.
Proof.
  revert found. induction columns as [|c rest IH]; intros found; simpl.
  - intros [= <-] Hin. by apply elem_of_nil in Hin.
  - destruct (cell (sMaze g) r c) as [w|]; simpl; [|discriminate].
    destruct w; simpl.
    2:{ intros [= <-] Hin. apply list_elem_of_singleton in Hin as ->. eauto. }
    destruct (cell (sMaze g) r 0) as [w0|]; simpl; [|discriminate].
    destruct w0; simpl.
    2:{ intros [= <-] Hin. apply list_elem_of_singleton in Hin as ->. eauto. }
    destruct (cell (sMaze g) r _) as [wl|]; simpl; [|discriminate].
    destruct wl; simpl.
    2:{ intros [= <-] Hin. apply list_elem_of_singleton in Hin as ->. eauto. }
    apply IH.
Qed.

Lemma scanRows_boundary rows result entrances :
  scanRows g rows result = Some entrances →
  Forall (boundaryRow g) result → Forall (boundaryRow g) entrances.
Proof.
  revert result. induction rows as [|r rest IH]; intros result; simpl.
  - by intros [= <-].
  - destruct ((r =? 0) || (r =? to_size (sRowCount g - 1))) eqn:Hr.
    + destruct (scanColumns g r (indices (sColumnCount g))) as [found|] eqn:Hf;
        simpl; [|discriminate].
      intros Hrest Hres. apply (IH _ Hrest).
      apply Forall_app. split; [exact Hres|].
      apply Forall_forall. intros e He.
      destruct (scanColumns_row _ _ _ _ Hf He) as [c Hc].
      exists r, c. split; [exact Hc|].
      apply orb_true_iff in Hr as [Hr|Hr]; apply Z.eqb_eq in Hr; auto.
    + apply IH.
Qed.

(** Every opening the scan returns was found in row 0 or in the last
    row: the rows in between contribute nothing. *)
Lemma findEntryPoints_boundary_rows entrances :
  findEntryPoints g = Some entrances → Forall (boundaryRow g) entrances.
Proof.
  intros H. eapply scanRows_boundary; [exact H|constructor].
Qed.

End ScanFacts.

(** C3 (code defect, lines 225-269).  The scan never looks at a row
    strictly between the first and the last: the [else] meant for them
    pairs with the [if] inside the column loop.  On the maze
    [Samples.side_openings], whose only openings are cell (0,1) of the
    left side and cell (3,2) of the right side, the scan returns nothing,
    where one candidate per side is expected, and [main] stops with the
    too-few-openings error. *)
Theorem findEntryPoints_skips_interior_rows :
  ∃ g, loadFile rectangular Samples.side_openings = MazeData g []
       ∧ cell (sMaze g) 1 0 = Some false
       ∧ cell (sMaze g) 2 3 = Some false
       ∧ findEntryPoints g = Some []
       ∧ main_rect Samples.side_openings 0 = InsufficientOpenings.
Proof.
  eexists. split; [vm_compute; reflexivity|].
  repeat split; vm_compute; reflexivity.
Qed.

(** * The check on the number of openings *)

(** C4, as stated, fails on [Samples.marked_inside]: the scan finds no
    boundary opening, two exits are marked, the total is two, and the
    program stops with the too-few-openings error all the same. *)
Lemma insufficient_openings_counterexample :
  ∃ g userExits entrances,
    loadFile rectangular Samples.marked_inside = MazeData g userExits
    ∧ findEntryPoints g = Some entrances
    ∧ ¬ (solve g userExits 0 = InsufficientOpenings
         ↔ (length entrances + length userExits < 2)%nat).
Proof.
  eexists _, _, _.
  split; [vm_compute; reflexivity|]. split; [vm_compute; reflexivity|].
  intros [Hfail _]. specialize (Hfail eq_refl). simpl in Hfail. lia.
Qed.

(** C4 (amended).  The program stops with the too-few-openings error,
    whatever the number of ticks it would be allowed, exactly when the
    scan found no boundary opening at all or the openings, boundary ones
    and marked exits together, are fewer than two.  So a grid without a
    boundary opening fails however many exits are marked, and a grid with
    one boundary opening and no marked exit fails. *)
Theorem insufficient_openings_iff g userExits entrances fuel :
  findEntryPoints g = Some entrances →
  (solve g userExits fuel = InsufficientOpenings
   ↔ (length entrances = 0 ∨ length entrances + length userExits < 2)%nat).
Proof.
  intros Hscan. unfold solve. rewrite Hscan.
  destruct entrances as [|first [|second others]].
  - simpl. split; [intros _; left; reflexivity | reflexivity].
  - destruct userExits as [|u userExits]; simpl.
    + split; [intros _; right; lia | reflexivity].
    + destruct (exit_direction first); split; try discriminate; lia.
  - simpl. destruct (exit_direction first); split; try discriminate; lia.
Qed.

Lemma insufficient_openings_iff_witness :
  ∃ g userExits,
    loadFile rectangular Samples.marked_inside = MazeData g userExits
    ∧ findEntryPoints g = Some []
    ∧ (solve g userExits 5 = InsufficientOpenings
       ↔ (length ([] : list ExitInformation) = 0
          ∨ length ([] : list ExitInformation) + length userExits < 2)%nat).
Proof.
  eexists _, _.
  split; [vm_compute; reflexivity|]. split; [vm_compute; reflexivity|].
  apply insufficient_openings_iff. vm_compute. reflexivity.
Defined.

(** * Reads outside the grid and outside the stack *)

(** C1 (code defect, lines 446-450).  The look-ahead cell is read with no
    bounds test, unlike the four probes of lines 404-418.  On
    [Samples.unregistered_opening] the robot walks down column 1 and
    stands, after two ticks, on the bottom row heading down; the third
    tick reads [sMaze[3][1]] in a grid of three rows. *)
Theorem lookahead_read_outside_grid :
  ∃ g userExits s,
    loadFile rectangular Samples.unregistered_opening = MazeData g userExits
    ∧ sRowCount g = 3
    ∧ main_rect Samples.unregistered_opening 2 = Traversal (Running s)
    ∧ bot s = {| bot_position := {| column := 1; row := 2 |};
                 bot_direction := DOWN |}
    ∧ mode s = Advancing
    ∧ main_rect Samples.unregistered_opening 3
      = Traversal (Crash (OutsideGrid 3 1)).
Proof.
  eexists _, _, _. split; [vm_compute; reflexivity|].
  repeat split; vm_compute; reflexivity.
Qed.

(** A step back on a stack of one node pops it and asks for the top of
    the empty stack. *)
Lemma stepBack_single_node g exits s node :
  mode s = Backtracking → visitedLocations s = [node] →
  tick g exits s = Crash TopOfEmptyStack.
Proof.
  intros Hmode Hstack. unfold tick, stepBack. by rewrite Hmode, Hstack.
Qed.

(** C10 (code defect, lines 518-520).  Backtracking does start with one
    node on the stack: on [Samples.short_dead_end] the robot moves once,
    is blocked, and the step back pops the only node and then calls
    [top()] on the empty stack. *)
Theorem step_back_reads_top_of_empty_stack :
  ∃ s node,
    main_rect Samples.short_dead_end 2 = Traversal (Running s)
    ∧ mode s = Backtracking
    ∧ visitedLocations s = [node]
    ∧ main_rect Samples.short_dead_end 3 = Traversal (Crash TopOfEmptyStack).
Proof.
  eexists _, _. split; [vm_compute; reflexivity|].
  repeat split; vm_compute; reflexivity.
Qed.

(** * Machine arithmetic and grid reads *)

(** Unfolds the reductions of machine integers, for [lia]. *)
Ltac machine :=
  unfold to_size, to_int;
  change (2 ^ 64) with 18446744073709551616;
  change (2 ^ 32) with 4294967296;
  change (2 ^ 31) with 2147483648.

Section Arithmetic.

Lemma to_size_bounds z : 0 ≤ to_size z < 2 ^ 64.
Proof. unfold to_size. apply Z.mod_pos_bound. lia. Qed.

Lemma lookahead_is_move p d :
  small p →
  small (vadd p (directionToVector d))
  ∨ small (vadd_assign p (directionToVector d)) →
  vadd p (directionToVector d) = vadd_assign p (directionToVector d)
  ∧ adjacent (vadd_assign p (directionToVector d)) p.
Proof.
  destruct p as [c r].
  unfold small, adjacent, vadd, vadd_assign, Vector2D_of_sizes, mkVector2D.
  destruct d; simpl; machine; intros [Hc Hr] Hs.
  all: split; [f_equal|]; Z.div_mod_to_equations; lia.
Qed.

Lemma neighbour_is_move g p d :
  small p → guard g p d = true → small (neighbour p d) →
  neighbour p d = vadd_assign p (directionToVector d)
  ∧ adjacent (vadd_assign p (directionToVector d)) p.
Proof.
  destruct p as [c r].
  unfold small, adjacent, neighbour, guard, vadd_assign.
  destruct d; simpl; intros [Hc Hr] Hg Hs;
    try (apply negb_true_iff, Z.eqb_neq in Hg);
    revert Hs; machine; intros Hs.
  all: split; [f_equal|]; Z.div_mod_to_equations; lia.
Qed.

End Arithmetic.

Section GridFacts.

Variable g : Grid.

Lemma cell_small r c w :
  smallGrid g → 0 ≤ r → 0 ≤ c → cell (sMaze g) r c = Some w →
  r < 2 ^ 31 ∧ c < 2 ^ 31.
Proof.
  intros [Hrows Hcols] Hr Hc. unfold cell.
  destruct (sMaze g !! Z.to_nat r) as [flags|] eqn:Hrow; simpl; [|discriminate].
  intros Hflag.
  apply lookup_lt_Some in Hrow as Hlt, Hflag.
  rewrite Forall_forall in Hcols.
  specialize (Hcols flags (list_elem_of_lookup_2 _ _ _ Hrow)). lia.
Qed.

Lemma openCell_small p : smallGrid g → openCell g p → small p.
Proof.
  intros Hg (Hc & Hr & Hcell).
  destruct (cell_small _ _ _ Hg Hr Hc Hcell). unfold small. lia.
Qed.

End GridFacts.

(** * The ticks *)

Section TickFacts.

Variable g : Grid.
Variable exits : list ExitInformation.

Lemma probe_cases gd r c k :
  (∃ f, probe g gd r c k = Crash f)
  ∨ probe g gd r c k
    = k (gd && isFree g {| column := c; row := r |}).
Proof.
  unfold probe, query, isFree. simpl. destruct gd; [|by right].
  destruct (cell (sMaze g) r c) as [[]|]; [by right|by right|left; eauto].
Qed.

Lemma probe_inside gd r c k :
  (gd = true → is_Some (cell (sMaze g) r c)) →
  probe g gd r c k = k (gd && isFree g {| column := c; row := r |}).
Proof.
  unfold probe, query, isFree. simpl. destruct gd; [|reflexivity].
  intros Hin. destruct (Hin eq_refl) as [w ->]. by destruct w.
Qed.

Lemma scan_cases p k :
  (∃ f, scan g p k = Crash f)
  ∨ (∃ n, scanned g p n ∧ scan g p k = k n).
Proof.
  unfold scan.
  repeat match goal with
  | |- (∃ f, probe g ?gd ?r ?c ?k' = _) ∨ _ =>
      destruct (probe_cases gd r c k') as [[f ->] | ->];
      [left; eauto|cbv beta]
  end.
  right. eexists. split; [|reflexivity].
  split; [reflexivity|]. split; intros []; reflexivity.
Qed.

Lemma tick_ticked s : ticked g exits s (tick g exits s).
Proof.
  unfold tick. destruct (mode s) eqn:Hmode.
  - destruct (existsb _ exits) eqn:Hexit; [by apply ticked_solved|].
    cbv zeta.
    match goal with |- ticked _ _ _ (scan g ?p ?k) =>
      destruct (scan_cases p k) as [[f ->]|[n [Hn ->]]]; [constructor|] end.
    cbv beta. unfold query.
    destruct (cell (sMaze g) _ _) as [[]|] eqn:Hahead; [| |constructor].
    + destruct (branch (bot_direction (bot s)) n) as [n' [heading|]] eqn:Hbr.
      * by eapply ticked_branch.
      * by eapply ticked_blocked.
    + by eapply ticked_straight.
  - unfold stepBack.
    destruct (visitedLocations s) as [|currentStep [|nextStep rest]] eqn:Hst.
    + by apply ticked_back_empty.
    + constructor.
    + destruct (retry currentStep nextStep) as [currentStep' [heading|]] eqn:Hr.
      * by eapply ticked_back_branch.
      * by eapply ticked_back_pop.
Qed.

End TickFacts.

(** * What every tick preserves *)

Section Invariants.

Variable g : Grid.
Variable exits : list ExitInformation.

Lemma branch_result heading n n' d :
  branch heading n = (n', Some d) →
  isOpen d n = true ∧ node_position n' = node_position n.
Proof.
  unfold branch.
  destruct heading; simpl;
    repeat match goal with
    | |- context [if ?b then _ else _] => destruct b eqn:?
    end;
    intros [= <- <-]; simpl; split; try reflexivity;
    repeat match goal with
    | H : _ && _ = true |- _ => apply andb_true_iff in H as [? ?]
    end; assumption.
Qed.

Lemma markWent_position d n : node_position (markWent d n) = node_position n.
Proof. by destruct d. Qed.

Lemma retry_position currentStep nextStep currentStep' o :
  retry currentStep nextStep = (currentStep', o) →
  node_position currentStep' = node_position currentStep.
Proof.
  unfold retry.
  repeat match goal with
  | |- context [if ?b then _ else _] => destruct b
  end; by intros [= <- <-].
Qed.

Lemma vadd_nonneg p q : 0 ≤ column (vadd p q) ∧ 0 ≤ row (vadd p q).
Proof. simpl. split; apply to_size_bounds. Qed.

Lemma neighbour_nonneg p d :
  0 ≤ column p → 0 ≤ row p →
  0 ≤ column (neighbour p d) ∧ 0 ≤ row (neighbour p d).
Proof. destruct d; simpl; intros; split; try apply to_size_bounds; lia. Qed.

Lemma linked_tail p path : linked (p :: path) → linked path.
Proof. destruct path; simpl; tauto. Qed.

(** A straight move lands on an open cell next to the one it leaves. *)
Lemma straight_target p d :
  smallGrid g → openCell g p →
  cell (sMaze g) (row (vadd p (directionToVector d)))
       (column (vadd p (directionToVector d))) = Some false →
  openCell g (vadd_assign p (directionToVector d))
  ∧ adjacent (vadd_assign p (directionToVector d)) p.
Proof.
  intros Hg Hp Hcell.
  destruct (vadd_nonneg p (directionToVector d)) as [Hc Hr].
  destruct (cell_small g _ _ _ Hg Hr Hc Hcell).
  destruct (lookahead_is_move p d) as [Heq Hadj].
  { eapply openCell_small; eassumption. }
  { left. unfold small. lia. }
  split; [|exact Hadj]. rewrite <- Heq. unfold openCell. auto.
Qed.

(** So does a move along a direction that [scan] found open. *)
Lemma branch_target p n d :
  smallGrid g → openCell g p → scanned g p n → isOpen d n = true →
  openCell g (vadd_assign p (directionToVector d))
  ∧ adjacent (vadd_assign p (directionToVector d)) p.
Proof.
  intros Hg Hp (_ & _ & Hopen) Hd.
  rewrite Hopen in Hd. apply andb_true_iff in Hd as [Hguard Hcell].
  unfold isFree in Hcell.
  destruct (cell (sMaze g) _ _) as [[]|] eqn:Hc' in Hcell; try discriminate.
  clear Hcell. rename Hc' into Hcell.
  pose proof Hp as (Hc0 & Hr0 & _).
  destruct (neighbour_nonneg p d Hc0 Hr0) as [Hc Hr].
  destruct (cell_small g _ _ _ Hg Hr Hc Hcell).
  destruct (neighbour_is_move g p d) as [Heq Hadj]; auto.
  { eapply openCell_small; eassumption. }
  { unfold small. lia. }
  split; [|exact Hadj]. rewrite <- Heq. unfold openCell. auto.
Qed.

Lemma keepBacktracking_running s s' :
  keepBacktracking s = Running s' → s' = s ∧ visitedLocations s ≠ [].
Proof.
  unfold keepBacktracking. destruct (visitedLocations s); [discriminate|].
  by intros [= ->].
Qed.

Lemma sound_move s d n :
  node_position n = bot_position (bot s) →
  openCell g (vadd_assign (bot_position (bot s)) (directionToVector d)) →
  adjacent (vadd_assign (bot_position (bot s)) (directionToVector d))
           (bot_position (bot s)) →
  sound g s → sound g (move s d n).
Proof.
  intros Hpos Hnew Hadj [Hopen Hlinked].
  unfold sound, trail, move in *. cbn [bot visitedLocations bot_position].
  rewrite fmap_cons, markWent_position, Hpos.
  split; [by constructor|]. split; [by right|exact Hlinked].
Qed.

Lemma sound_back s currentStep rest heading md :
  visitedLocations s = currentStep :: rest →
  sound g s →
  sound g {| bot := {| bot_position := node_position currentStep;
                       bot_direction := heading |};
             visitedLocations := rest; mode := md |}.
Proof.
  intros Hstack [Hopen Hlinked]. unfold sound, trail in *.
  rewrite Hstack, fmap_cons in *. cbn [bot visitedLocations bot_position].
  apply Forall_cons in Hopen as [_ Hopen].
  split; [exact Hopen|]. eapply linked_tail, Hlinked.
Qed.

Lemma sound_push s n md :
  node_position n = bot_position (bot s) →
  sound g s →
  sound g {| bot := bot s; visitedLocations := n :: visitedLocations s;
             mode := md |}.
Proof.
  intros Hpos [Hopen Hlinked]. unfold sound, trail in *.
  cbn [bot visitedLocations]. rewrite fmap_cons, Hpos.
  pose proof Hopen as Hbot. apply Forall_cons in Hbot as [Hbot _].
  split; [by constructor|]. split; [by left|exact Hlinked].
Qed.

Lemma tick_sound s s' :
  smallGrid g → sound g s → tick g exits s = Running s' → sound g s'.
Proof.
  intros Hg Hsound Htick.
  pose proof (tick_ticked g exits s) as Hstep. rewrite Htick in Hstep.
  assert (Hbot : openCell g (bot_position (bot s))).
  { destruct Hsound as [Hopen _]. by apply Forall_cons in Hopen as [? _]. }
  inversion Hstep as
    [ | | n ahead Hmode Hscan Hahead Hcell Heq
      | n n' heading Hmode Hscan Hbr Heq
      | n n' Hmode Hbr Heq
      | cur next rest cur' heading Hmode Hstack Hre Heq
      | cur next rest cur' Hmode Hstack Hre Heq | ]; subst.
  - destruct (straight_target _ (bot_direction (bot s)) Hg Hbot Hcell)
      as [Hnew Hadj].
    destruct Hscan as (Hpos & _). by apply sound_move.
  - destruct (branch_result _ _ _ _ Hbr) as [Hd Hpos'].
    destruct (branch_target _ _ heading Hg Hbot Hscan Hd) as [Hnew Hadj].
    destruct Hscan as (Hpos & _). apply sound_move; congruence.
  - apply keepBacktracking_running in Heq as [-> _].
    exact Hsound.
  - pose proof (retry_position _ _ _ _ Hre) as Hpos.
    apply (sound_push
             {| bot := {| bot_position := node_position cur';
                          bot_direction := heading |};
                visitedLocations := next :: rest; mode := Advancing |});
      [reflexivity|].
    rewrite Hpos. by eapply sound_back.
  - rewrite (retry_position _ _ _ _ Hre). by eapply sound_back.
Qed.

(** A property kept by every tick holds along a run, and in the state
    whose tick ended the run. *)
Lemma run_invariant (P : State → Prop) :
  (∀ s s', P s → tick g exits s = Running s' → P s') →
  ∀ n s, P s →
  match run g exits n s with
  | Running s' => P s'
  | o => ∃ s', P s' ∧ tick g exits s' = o
  end.
Proof.
  intros Hstep. induction n as [|n IH]; intros s Hs; simpl; [exact Hs|].
  destruct (tick g exits s) as [s'| | |] eqn:Htick.
  - apply IH. eapply Hstep; eassumption.
  - by exists s.
  - by exists s.
  - by exists s.
Qed.

Lemma tick_solved_path s path :
  tick g exits s = Solved path → path = node_position <$> visitedLocations s.
Proof.
  intros Htick.
  pose proof (tick_ticked g exits s) as Hstep. rewrite Htick in Hstep.
  inversion Hstep; subst; try reflexivity.
  - unfold keepBacktracking in *. by destruct (visitedLocations s).
Qed.

End Invariants.

(** * The emitted path *)

(** C6, as stated, fails on [Samples.dead_end_then_exit]: the robot runs
    into the dead end below the junction (1,2), steps back to the
    junction, and leaves it to the right; the junction is on the stack
    twice, so the emitted path holds the same cell twice in a row. *)
Lemma solved_path_repeats_a_cell :
  ∃ path,
    main_rect Samples.dead_end_then_exit 8 = Traversal (Solved path)
    ∧ path = [ {| column := 2; row := 2 |}; {| column := 1; row := 2 |};
               {| column := 1; row := 2 |}; {| column := 1; row := 1 |};
               {| column := 1; row := 0 |} ]
    ∧ ¬ stepwise path.
Proof.
  eexists. split; [vm_compute; reflexivity|]. split; [reflexivity|].
  simpl. unfold adjacent. simpl. lia.
Qed.

(** C6 (amended).  Whenever the engine, started on an open cell with an
    empty stack, ends with Solved, every cell of the emitted path is an
    open cell of the grid, and two consecutive cells of the path are
    either the same cell (a node pushed again after a step back) or one
    unit apart in exactly one axis. *)
Theorem solved_path_open_and_linked g exits p heading n path :
  smallGrid g → openCell g p →
  run g exits n (initial p heading) = Solved path →
  Forall (openCell g) path ∧ linked path.
Proof.
  intros Hg Hp Hrun.
  pose proof (run_invariant g exits (sound g)
                (λ s s' Hs, tick_sound g exits s s' Hg Hs)
                n (initial p heading)) as Hinv.
  rewrite Hrun in Hinv.
  destruct Hinv as (s & [Hopen Hlinked] & Htick).
  { split; [|exact I]. unfold trail, initial. simpl.
    constructor; [exact Hp|constructor]. }
  apply tick_solved_path in Htick as ->.
  unfold trail in *. apply Forall_cons in Hopen as [_ Hopen].
  split; [exact Hopen|]. eapply linked_tail, Hlinked.
Qed.

Lemma solved_path_open_and_linked_witness :
  main_rect Samples.dead_end_then_exit 8
    = Traversal (run (gridOf Samples.dead_end_then_exit)
                     (exitsOf Samples.dead_end_then_exit) 8
                     (initial {| column := 1; row := 0 |} DOWN))
  ∧ (smallGrid (gridOf Samples.dead_end_then_exit)
     ∧ openCell (gridOf Samples.dead_end_then_exit) {| column := 1; row := 0 |}
     ∧ run (gridOf Samples.dead_end_then_exit)
           (exitsOf Samples.dead_end_then_exit) 8
           (initial {| column := 1; row := 0 |} DOWN)
       = Solved [ {| column := 2; row := 2 |}; {| column := 1; row := 2 |};
                  {| column := 1; row := 2 |}; {| column := 1; row := 1 |};
                  {| column := 1; row := 0 |} ])
  ∧ Forall (openCell (gridOf Samples.dead_end_then_exit))
      [ {| column := 2; row := 2 |}; {| column := 1; row := 2 |};
        {| column := 1; row := 2 |}; {| column := 1; row := 1 |};
        {| column := 1; row := 0 |} ]
  ∧ linked [ {| column := 2; row := 2 |}; {| column := 1; row := 2 |};
             {| column := 1; row := 2 |}; {| column := 1; row := 1 |};
             {| column := 1; row := 0 |} ].
Proof.
  assert (Hg : smallGrid (gridOf Samples.dead_end_then_exit)).
  { split; [vm_compute; reflexivity|].
    unfold gridOf. simpl. repeat constructor. }
  assert (Hp : openCell (gridOf Samples.dead_end_then_exit)
                 {| column := 1; row := 0 |}).
  { split; [vm_compute; discriminate|]. split; [vm_compute; discriminate|].
    vm_compute. reflexivity. }
  split; [vm_compute; reflexivity|]. split.
  { split; [exact Hg|]. split; [exact Hp|]. vm_compute. reflexivity. }
  apply (solved_path_open_and_linked (gridOf Samples.dead_end_then_exit)
           (exitsOf Samples.dead_end_then_exit)
           {| column := 1; row := 0 |} DOWN 8%nat _ Hg Hp).
  vm_compute. reflexivity.
Defined.

(** * The top of the stack *)

Section TopRecord.

Variable g : Grid.
Variable exits : list ExitInformation.
Variable start : State.

Lemma tick_tracked s s' : tick g exits s = Running s' → tracked start s'.
Proof.
  intros Htick.
  pose proof (tick_ticked g exits s) as Hstep. rewrite Htick in Hstep.
  unfold tracked, topRecord.
  inversion Hstep as
    [ | | n ahead Hmode Hscan Hahead Hcell Heq
      | n n' heading Hmode Hscan Hbr Heq
      | n n' Hmode Hbr Heq
      | cur next rest cur' heading Hmode Hstack Hre Heq
      | cur next rest cur' Hmode Hstack Hre Heq | ]; subst.
  - destruct Hscan as (Hpos & _). simpl. rewrite markWent_position, Hpos.
    split; [discriminate|auto].
  - destruct (branch_result _ _ _ _ Hbr) as [_ Hpos'].
    destruct Hscan as (Hpos & _). simpl.
    rewrite markWent_position, Hpos', Hpos. split; [discriminate|auto].
  - apply keepBacktracking_running in Heq as [-> Hne]. simpl.
    split; [done|discriminate].
  - simpl. split; [discriminate|auto].
  - simpl. split; discriminate.
Qed.

Lemma run_tracked n s :
  mode start = Advancing → visitedLocations start = [] →
  run g exits n start = Running s → tracked start s.
Proof.
  intros Hmode Hstack Hrun.
  pose proof (run_invariant g exits (tracked start)
                (λ s s' _, tick_tracked s s') n start) as Hinv.
  rewrite Hrun in Hinv. apply Hinv.
  split; [reflexivity|]. intros _. unfold topRecord. by rewrite Hstack.
Qed.

(** The state a run of [S n] ticks ends in has a predecessor. *)
Lemma run_last n : ∀ s s',
  run g exits (S n) s = Running s' →
  ∃ s0, run g exits n s = Running s0 ∧ tick g exits s0 = Running s'.
Proof.
  induction n as [|n IH]; intros s s' Hrun.
  - exists s. split; [reflexivity|]. simpl in Hrun.
    by destruct (tick g exits s).
  - change (run g exits (S (S n)) s)
      with (match tick g exits s with
            | Running s1 => run g exits (S n) s1
            | o => o
            end) in Hrun.
    change (run g exits (S n) s)
      with (match tick g exits s with
            | Running s1 => run g exits n s1
            | o => o
            end).
    destruct (tick g exits s) as [s1| | |]; try discriminate.
    by apply IH.
Qed.

Lemma markWent_hasGone d node : hasGone d (markWent d node) = true.
Proof. by destruct d. Qed.

End TopRecord.

(** C5, as stated, fails on [Samples.corridor] after the first tick: the
    engine is Advancing, the robot stands on (1,1), and the top of the
    stack records (1,0), the cell it has left. *)
Lemma top_records_previous_cell :
  ∃ s top rest,
    main_rect Samples.corridor 1 = Traversal (Running s)
    ∧ mode s = Advancing
    ∧ visitedLocations s = top :: rest
    ∧ bot_position (bot s) = {| column := 1; row := 1 |}
    ∧ node_position top = {| column := 1; row := 0 |}
    ∧ node_position top ≠ bot_position (bot s).
Proof.
  eexists _, _, _. split; [vm_compute; reflexivity|].
  repeat split; discriminate.
Qed.

(** C5 (amended).  In every state reached from the initial one: while
    Advancing, either the robot has not moved yet and the stack is empty,
    or the last tick was a move, and then the top of the stack records the
    cell the robot has just left, marked as left along the robot's
    heading, the robot standing one step further along that heading, or
    the last tick was a step back that found a branch, and then the top
    records the robot's own cell.  While Backtracking the stack is not
    empty and a step back pops its top, puts the robot on the popped cell,
    and pushes the node again exactly when it found a branch, which ends
    the backtracking. *)
Theorem history_top_record g exits p heading n s :
  run g exits n (initial p heading) = Running s →
  (mode s = Advancing →
     (n = 0%nat ∧ s = initial p heading)
     ∨ ∃ m s0,
         n = S m
         ∧ run g exits m (initial p heading) = Running s0
         ∧ tick g exits s0 = Running s
         ∧ ((mode s0 = Advancing
             ∧ ∃ top,
                 visitedLocations s = top :: visitedLocations s0
                 ∧ node_position top = bot_position (bot s0)
                 ∧ hasGone (bot_direction (bot s)) top = true
                 ∧ bot_position (bot s)
                   = vadd_assign (bot_position (bot s0))
                       (directionToVector (bot_direction (bot s))))
            ∨ (mode s0 = Backtracking
               ∧ ∃ popped top rest,
                   visitedLocations s0 = popped :: rest
                   ∧ visitedLocations s = top :: rest
                   ∧ node_position top = node_position popped
                   ∧ bot_position (bot s) = node_position top)))
  ∧ (mode s = Backtracking →
     ∃ top rest,
       visitedLocations s = top :: rest
       ∧ ∀ s', tick g exits s = Running s' →
           bot_position (bot s') = node_position top
           ∧ ((mode s' = Backtracking ∧ visitedLocations s' = rest)
              ∨ (mode s' = Advancing
                 ∧ ∃ top', visitedLocations s' = top' :: rest
                           ∧ node_position top' = node_position top))).
Proof.
  intros Hrun.
  destruct (run_tracked g exits (initial p heading) n s eq_refl eq_refl Hrun)
    as [Hempty Htop].
  split.
  - intros Hmode. destruct n as [|m].
    { left. split; [reflexivity|]. injection Hrun as <-. reflexivity. }
    right. destruct (run_last g exits m _ _ Hrun) as (s0 & Hrun0 & Htick).
    exists m, s0. do 3 (split; [done|]).
    pose proof (tick_ticked g exits s0) as Hstep. rewrite Htick in Hstep.
    inversion Hstep as
      [ | | n0 ahead Hm Hscan Hahead Hcell Heq
        | n0 n' hd Hm Hscan Hbr Heq
        | n0 n' Hm Hbr Heq
        | cur next rest cur' hd Hm Hst Hre Heq
        | cur next rest cur' Hm Hst Hre Heq | ]; subst.
    + left. split; [exact Hm|]. destruct Hscan as (Hpos & _).
      eexists. split; [reflexivity|]. simpl.
      rewrite markWent_position, markWent_hasGone. by rewrite Hpos.
    + left. split; [exact Hm|]. destruct Hscan as (Hpos & _).
      destruct (branch_result _ _ _ _ Hbr) as [_ Hpos'].
      eexists. split; [reflexivity|]. simpl.
      rewrite markWent_position, markWent_hasGone, Hpos'. by rewrite Hpos.
    + apply keepBacktracking_running in Heq as [-> _]. discriminate.
    + right. split; [exact Hm|].
      exists cur, cur', (next :: rest). simpl.
      by rewrite (retry_position _ _ _ _ Hre).
    + discriminate.
  - intros Hmode.
    destruct (visitedLocations s) as [|top rest] eqn:Hstack.
    { rewrite (Hempty eq_refl) in Hmode. discriminate. }
    exists top, rest. split; [reflexivity|]. intros s' Htick.
    pose proof (tick_ticked g exits s) as Hstep. rewrite Htick in Hstep.
    inversion Hstep as
      [ | | n0 ahead Hm | n0 n' hd Hm | n0 n' Hm
        | cur next rest' cur' hd Hm Hst Hre Heq
        | cur next rest' cur' Hm Hst Hre Heq | ]; subst; try congruence.
    + rewrite Hstack in Hst. injection Hst as <- <-.
      pose proof (retry_position _ _ _ _ Hre) as Hpos. simpl.
      split; [exact Hpos|]. right. split; [reflexivity|]. eauto.
    + rewrite Hstack in Hst. injection Hst as <- <-.
      pose proof (retry_position _ _ _ _ Hre) as Hpos. simpl.
      split; [exact Hpos|]. left. auto.
Qed.

Lemma history_top_record_witness :
  ∃ s1 s4 s5,
    (main_rect Samples.dead_end_then_exit 5 = Traversal (Running s5)
     ∧ run (gridOf Samples.dead_end_then_exit)
           (exitsOf Samples.dead_end_then_exit) 1
           (initial {| column := 1; row := 0 |} DOWN) = Running s1
     ∧ run (gridOf Samples.dead_end_then_exit)
           (exitsOf Samples.dead_end_then_exit) 4
           (initial {| column := 1; row := 0 |} DOWN) = Running s4
     ∧ run (gridOf Samples.dead_end_then_exit)
           (exitsOf Samples.dead_end_then_exit) 5
           (initial {| column := 1; row := 0 |} DOWN) = Running s5
     ∧ mode s1 = Advancing ∧ mode s4 = Backtracking ∧ mode s5 = Advancing)
    ∧ ((1%nat = 0%nat ∧ s1 = initial {| column := 1; row := 0 |} DOWN)
       ∨ ∃ m s0,
           1%nat = S m
           ∧ run (gridOf Samples.dead_end_then_exit)
                 (exitsOf Samples.dead_end_then_exit) m
                 (initial {| column := 1; row := 0 |} DOWN) = Running s0
           ∧ tick (gridOf Samples.dead_end_then_exit)
                  (exitsOf Samples.dead_end_then_exit) s0 = Running s1
           ∧ ((mode s0 = Advancing
               ∧ ∃ top,
                   visitedLocations s1 = top :: visitedLocations s0
                   ∧ node_position top = bot_position (bot s0)
                   ∧ hasGone (bot_direction (bot s1)) top = true
                   ∧ bot_position (bot s1)
                     = vadd_assign (bot_position (bot s0))
                         (directionToVector (bot_direction (bot s1))))
              ∨ (mode s0 = Backtracking
                 ∧ ∃ popped top rest,
                     visitedLocations s0 = popped :: rest
                     ∧ visitedLocations s1 = top :: rest
                     ∧ node_position top = node_position popped
                     ∧ bot_position (bot s1) = node_position top)))
    ∧ (∃ top rest, visitedLocations s4 = top :: rest
        ∧ ∀ s', tick (gridOf Samples.dead_end_then_exit)
                     (exitsOf Samples.dead_end_then_exit) s4 = Running s' →
            bot_position (bot s') = node_position top
            ∧ ((mode s' = Backtracking ∧ visitedLocations s' = rest)
               ∨ (mode s' = Advancing
                  ∧ ∃ top', visitedLocations s' = top' :: rest
                            ∧ node_position top' = node_position top)))
    ∧ ((5%nat = 0%nat ∧ s5 = initial {| column := 1; row := 0 |} DOWN)
       ∨ ∃ m s0,
           5%nat = S m
           ∧ run (gridOf Samples.dead_end_then_exit)
                 (exitsOf Samples.dead_end_then_exit) m
                 (initial {| column := 1; row := 0 |} DOWN) = Running s0
           ∧ tick (gridOf Samples.dead_end_then_exit)
                  (exitsOf Samples.dead_end_then_exit) s0 = Running s5
           ∧ ((mode s0 = Advancing
               ∧ ∃ top,
                   visitedLocations s5 = top :: visitedLocations s0
                   ∧ node_position top = bot_position (bot s0)
                   ∧ hasGone (bot_direction (bot s5)) top = true
                   ∧ bot_position (bot s5)
                     = vadd_assign (bot_position (bot s0))
                         (directionToVector (bot_direction (bot s5))))
              ∨ (mode s0 = Backtracking
                 ∧ ∃ popped top rest,
                     visitedLocations s0 = popped :: rest
                     ∧ visitedLocations s5 = top :: rest
                     ∧ node_position top = node_position popped
                     ∧ bot_position (bot s5) = node_position top))).
Proof.
  eexists _, _, _.
  match goal with
  | |- (?m = _ ∧ ?r1 = Running ?s1 ∧ ?r4 = Running ?s4 ∧ ?r5 = Running ?s5
        ∧ _) ∧ _ =>
      assert (Hmain : m = Traversal (Running s5)) by (vm_compute; reflexivity);
      assert (Hrun1 : r1 = Running s1) by (vm_compute; reflexivity);
      assert (Hrun4 : r4 = Running s4) by (vm_compute; reflexivity);
      assert (Hrun5 : r5 = Running s5) by (vm_compute; reflexivity)
  end.
  split.
  { split; [exact Hmain|]. split; [exact Hrun1|]. split; [exact Hrun4|].
    split; [exact Hrun5|]. split; [reflexivity|]. split; reflexivity. }
  split; [exact (proj1 (history_top_record _ _ _ _ _ _ Hrun1) eq_refl)|].
  split; [exact (proj2 (history_top_record _ _ _ _ _ _ Hrun4) eq_refl)|].
  exact (proj1 (history_top_record _ _ _ _ _ _ Hrun5) eq_refl).
Defined.

(** * The orders of preference *)

Section TieBreak.

Lemma branch_order heading node :
  snd (branch heading node)
  = List.find (λ d, isOpen d node && negb (hasGone d node))
              (perpendicular heading).
Proof.
  unfold branch. destruct heading; cbn [perpendicular List.find isOpen hasGone];
    simpl;
    repeat match goal with
    | |- context [if ?b then _ else _] => destruct b
    end; reflexivity.
Qed.


End TieBreak.




(** * Runs *)

Lemma find_pointwise {A} (f h : A → bool) (l : list A) :
  (∀ x, f x = h x) → List.find f l = List.find h l.
Proof.
  intros Hfh. induction l as [|x l IH]; [reflexivity|].
  simpl. by rewrite Hfh, IH.
Qed.

Section Runs.

Variable g : Grid.
Variable exits : list ExitInformation.

Lemma run_snoc n s :
  run g exits (S n) s
  = match run g exits n s with
    | Running s' => tick g exits s'
    | o => o
    end.
Proof.
  revert s. induction n as [|n IH]; intros s.
  - simpl. by destruct (tick g exits s).
  - change (run g exits (S (S n)) s)
      with (match tick g exits s with
            | Running s' => run g exits (S n) s'
            | o => o
            end).
    destruct (tick g exits s) as [s'| | |] eqn:Htick.
    + rewrite IH. simpl. by rewrite Htick.
    + simpl. by rewrite Htick.
    + simpl. by rewrite Htick.
    + simpl. by rewrite Htick.
Qed.

Lemma run_add a b s :
  run g exits (a + b) s
  = match run g exits a s with
    | Running s' => run g exits b s'
    | o => o
    end.
Proof.
  revert s. induction a as [|a IH]; intros s; [reflexivity|].
  simpl. destruct (tick g exits s); auto.
Qed.

Lemma tick_exit s :
  mode s = Advancing → isExit exits (bot_position (bot s)) = true →
  tick g exits s = Solved (node_position <$> visitedLocations s).
Proof.
  intros Hmode Hexit. unfold tick. rewrite Hmode.
  unfold isExit in Hexit. by rewrite Hexit.
Qed.

End Runs.

(** * Corridors *)

Section Corridor.

Variable g : Grid.
Variable exits : list ExitInformation.
Hypothesis Hwf : wellFormed g.

Lemma wellFormed_smallGrid : smallGrid g.
Proof.
  destruct Hwf as (Hr & Hc & Hr31 & Hc31). split; [lia|].
  eapply Forall_impl; [exact Hc|]. simpl. intros flags <-. exact Hc31.
Qed.

Lemma cell_inside r c :
  0 ≤ r < sRowCount g → 0 ≤ c < sColumnCount g →
  is_Some (cell (sMaze g) r c).
Proof.
  destruct Hwf as (Hr & Hc & _). intros Hrow Hcol. unfold cell.
  destruct (lookup_lt_is_Some_2 (sMaze g) (Z.to_nat r)) as [flags Hf]; [lia|].
  rewrite Hf. simpl. apply lookup_lt_is_Some_2.
  rewrite Forall_forall in Hc.
  specialize (Hc flags (list_elem_of_lookup_2 _ _ _ Hf)). lia.
Qed.

Lemma openCell_inside p :
  openCell g p →
  0 ≤ row p < sRowCount g ∧ 0 ≤ column p < sColumnCount g.
Proof.
  destruct Hwf as (Hr & Hc & _). intros (Hc0 & Hr0 & Hcell).
  unfold cell in Hcell.
  destruct (sMaze g !! Z.to_nat (row p)) as [flags|] eqn:Hf;
    simpl in Hcell; [|discriminate].
  apply lookup_lt_Some in Hf as Hlt, Hcell.
  rewrite Forall_forall in Hc.
  specialize (Hc flags (list_elem_of_lookup_2 _ _ _ Hf)). lia.
Qed.

(** On a rectangular grid the guards of [scan] keep its reads inside. *)
Lemma scan_total p k :
  openCell g p → ∃ n, scanned g p n ∧ scan g p k = k n.
Proof.
  intros Hp. destruct (openCell_inside p Hp) as [Hrow Hcol].
  destruct Hwf as (_ & _ & Hr31 & Hc31).
  unfold scan.
  rewrite probe_inside; cbv beta.
  2:{ intros Hgd. apply negb_true_iff, Z.eqb_neq in Hgd. apply cell_inside;
      [|lia]. revert Hr31 Hc31. machine. intros. Z.div_mod_to_equations; lia. }
  rewrite probe_inside; cbv beta.
  2:{ intros Hgd. apply negb_true_iff, Z.eqb_neq in Hgd. apply cell_inside;
      [|lia]. revert Hgd Hr31 Hc31. machine. intros.
      Z.div_mod_to_equations; lia. }
  rewrite probe_inside; cbv beta.
  2:{ intros Hgd. apply negb_true_iff, Z.eqb_neq in Hgd. apply cell_inside;
      [lia|]. revert Hr31 Hc31. machine. intros. Z.div_mod_to_equations; lia. }
  rewrite probe_inside; cbv beta.
  2:{ intros Hgd. apply negb_true_iff, Z.eqb_neq in Hgd. apply cell_inside;
      [lia|]. revert Hgd Hr31 Hc31. machine. intros.
      Z.div_mod_to_equations; lia. }
  eexists. split; [|reflexivity].
  split; [reflexivity|]. split; intros []; reflexivity.
Qed.

(** A tick with the cell ahead open moves the robot straight on. *)
Lemma tick_straight s :
  mode s = Advancing →
  openCell g (bot_position (bot s)) →
  isExit exits (bot_position (bot s)) = false →
  openCell g (vadd_assign (bot_position (bot s))
                (directionToVector (bot_direction (bot s)))) →
  ∃ n, node_position n = bot_position (bot s)
       ∧ tick g exits s = Running (move s (bot_direction (bot s)) n).
Proof.
  intros Hmode Hp Hexit Hnext. unfold tick. rewrite Hmode.
  unfold isExit in Hexit. rewrite Hexit. cbv zeta.
  match goal with
  | |- ∃ n, _ ∧ scan g ?p ?k = _ =>
      destruct (scan_total p k Hp) as (n & Hn & ->)
  end.
  exists n. split; [apply Hn|].
  destruct (lookahead_is_move (bot_position (bot s)) (bot_direction (bot s)))
    as [-> _].
  { eapply openCell_small; [apply wellFormed_smallGrid|exact Hp]. }
  { right. eapply openCell_small; [apply wellFormed_smallGrid|exact Hnext]. }
  unfold query. destruct Hnext as (_ & _ & ->). reflexivity.
Qed.

(** A tick with a wall ahead turns to the first free perpendicular
    direction. *)
Lemma tick_turn s d :
  mode s = Advancing →
  openCell g (bot_position (bot s)) →
  isExit exits (bot_position (bot s)) = false →
  cell (sMaze g)
    (row (vadd (bot_position (bot s))
               (directionToVector (bot_direction (bot s)))))
    (column (vadd (bot_position (bot s))
                  (directionToVector (bot_direction (bot s))))) = Some true →
  List.find (λ d', guard g (bot_position (bot s)) d'
                   && isFree g (neighbour (bot_position (bot s)) d'))
            (perpendicular (bot_direction (bot s))) = Some d →
  ∃ n, node_position n = bot_position (bot s)
       ∧ tick g exits s = Running (move s d n).
Proof.
  intros Hmode Hp Hexit Hwall Hfind. unfold tick. rewrite Hmode.
  unfold isExit in Hexit. rewrite Hexit. cbv zeta.
  match goal with
  | |- ∃ n, _ ∧ scan g ?p ?k = _ =>
      destruct (scan_total p k Hp) as (n & Hn & ->)
  end.
  unfold query. rewrite Hwall.
  pose proof (branch_order (bot_direction (bot s)) n) as Hbr.
  destruct Hn as (Hpos & Hfresh & Hflags).
  rewrite (find_pointwise _ (λ d', guard g (bot_position (bot s)) d'
                    && isFree g (neighbour (bot_position (bot s)) d'))) in Hbr.
  2:{ intros d'. by rewrite Hflags, Hfresh, andb_true_r. }
  rewrite Hfind in Hbr.
  destruct (branch (bot_direction (bot s)) n) as [n' o] eqn:Hb.
  simpl in Hbr. subst o.
  exists n'. split; [|reflexivity].
  destruct (branch_result _ _ _ _ Hb) as [_ ->]. exact Hpos.
Qed.

Lemma ahead_shift p d k :
  ahead (vadd_assign p (directionToVector d)) d k = ahead p d (S k).
Proof. induction k as [|k IH]; [reflexivity|]. simpl in *. by rewrite IH. Qed.

(** Along open cells that are not exits the robot advances one cell a
    tick and pushes the cell it leaves. *)
Lemma corridor_advance d m s :
  mode s = Advancing → bot_direction (bot s) = d →
  (∀ k, (k ≤ m)%nat → openCell g (ahead (bot_position (bot s)) d k)) →
  (∀ k, (k < m)%nat →
        isExit exits (ahead (bot_position (bot s)) d k) = false) →
  ∀ k, (k ≤ m)%nat →
  ∃ s', run g exits k s = Running s'
        ∧ mode s' = Advancing
        ∧ bot s' = {| bot_position := ahead (bot_position (bot s)) d k;
                      bot_direction := d |}
        ∧ node_position <$> visitedLocations s'
          = rev (ahead (bot_position (bot s)) d <$> seq 0 k)
            ++ (node_position <$> visitedLocations s).
Proof.
  intros Hmode Hdir Hopen Hexits. induction k as [|k IH]; intros Hk.
  - exists s. split; [reflexivity|]. split; [exact Hmode|].
    split; [|reflexivity]. destruct s as [[q h] st md]. simpl in *. by subst.
  - destruct IH as (sk & Hrun & Hmk & Hbot & Hst); [lia|].
    destruct (tick_straight sk) as (n & Hn & Htick); try assumption.
    + rewrite Hbot. simpl. apply Hopen. lia.
    + rewrite Hbot. simpl. apply Hexits. lia.
    + rewrite Hbot. simpl. apply (Hopen (S k)). lia.
    + exists (move sk (bot_direction (bot sk)) n).
      rewrite run_snoc, Hrun. split; [exact Htick|].
      split; [reflexivity|]. unfold move.
      cbn [bot visitedLocations]. rewrite fmap_cons, markWent_position, Hn.
      rewrite Hbot. cbn [bot_position bot_direction].
      split; [reflexivity|].
      rewrite seq_S, fmap_app, rev_app_distr, Hst. reflexivity.
Qed.

End Corridor.

Lemma ahead_seq p d k :
  ahead p d <$> seq 0 (S k)
  = p :: (ahead (vadd_assign p (directionToVector d)) d <$> seq 0 k).
Proof.
  cbn [seq fmap list_fmap ahead]. f_equal.
  rewrite <- fmap_S_seq, <- list_fmap_compose.
  apply list_fmap_ext. intros i k' _. simpl. symmetry. apply ahead_shift.
Qed.

(** C9, as stated, fails on [Samples.corridor], a corridor of three
    cells: after two ticks (corridor length - 1) the robot stands on the
    exit (1,2) and the engine is still running; Solved is the outcome of
    the third tick, whose goal check finds the robot on the exit. *)
Lemma corridor_not_solved_one_tick_early :
  (∃ s, main_rect Samples.corridor 2 = Traversal (Running s)
        ∧ bot_position (bot s) = {| column := 1; row := 2 |})
  ∧ ¬ (∃ path, main_rect Samples.corridor 2 = Traversal (Solved path))
  ∧ main_rect Samples.corridor 3
    = Traversal (Solved [ {| column := 1; row := 1 |};
                          {| column := 1; row := 0 |} ]).
Proof.
  split; [eexists; split; [vm_compute; reflexivity|reflexivity]|].
  split; [|vm_compute; reflexivity].
  intros [path Hpath]. vm_compute in Hpath. discriminate.
Qed.

(** C9 (amended).  Let the cells [p], [p+d], ..., [p+m*d] of a rectangular
    grid be open (a corridor of m+1 cells), the last of them an exit and
    none of the others, and let the robot enter at [p] either heading
    along [d] or turning into [d] at once.  Then the engine moves the
    robot one cell along the corridor on each of the first m ticks, never
    leaving the Advancing state, so that after m ticks (corridor length
    - 1) the robot stands on the exit; the goal check of the next tick,
    tick number m+1 (the corridor length), ends the run with Solved and
    emits the m cells left behind, last one first. *)
Theorem corridor_solved g exits p heading d m :
  wellFormed g → entersAlong g p heading d →
  (∀ k, (k ≤ m)%nat → openCell g (ahead p d k)) →
  (∀ k, (k < m)%nat → isExit exits (ahead p d k) = false) →
  isExit exits (ahead p d m) = true →
  (∀ k, (k ≤ m)%nat →
     ∃ s, run g exits k (initial p heading) = Running s
          ∧ mode s = Advancing
          ∧ bot_position (bot s) = ahead p d k
          ∧ node_position <$> visitedLocations s
            = rev (ahead p d <$> seq 0 k))
  ∧ run g exits (S m) (initial p heading)
    = Solved (rev (ahead p d <$> seq 0 m)).
Proof.
  intros Hwf Henter Hopen Hexits Hexit. destruct m as [|m].
  { split.
    - intros k Hk. assert (k = 0%nat) as -> by lia.
      exists (initial p heading). by repeat split.
    - simpl. by rewrite tick_exit. }
  assert (Hfirst : ∃ n, node_position n = p
            ∧ tick g exits (initial p heading)
              = Running (move (initial p heading) d n)).
  { destruct Henter as [->|[Hwall Hfind]].
    - apply (tick_straight g exits Hwf (initial p d)); simpl;
        [reflexivity|apply (Hopen 0%nat); lia|apply (Hexits 0%nat); lia|].
      apply (Hopen 1%nat). lia.
    - apply (tick_turn g exits Hwf (initial p heading) d); simpl;
        [reflexivity|apply (Hopen 0%nat); lia|apply (Hexits 0%nat); lia
        |exact Hwall|exact Hfind]. }
  destruct Hfirst as (n & Hn & Htick).
  pose proof (corridor_advance g exits Hwf d m
                (move (initial p heading) d n) eq_refl eq_refl) as Hadv.
  cbn [move bot bot_position visitedLocations initial] in Hadv.
  assert (Hnext : ∀ k, (k ≤ m)%nat →
    ∃ s', run g exits (S k) (initial p heading) = Running s'
          ∧ mode s' = Advancing
          ∧ bot s' = {| bot_position := ahead p d (S k); bot_direction := d |}
          ∧ node_position <$> visitedLocations s'
            = rev (ahead p d <$> seq 0 (S k))).
  { intros k Hk. destruct (Hadv) with (k := k) as (s' & Hrun & Hm & Hb & Hst).
    - intros j Hj. rewrite ahead_shift. apply Hopen. lia.
    - intros j Hj. rewrite ahead_shift. apply Hexits. lia.
    - exact Hk.
    - exists s'. split; [simpl; by rewrite Htick|]. split; [exact Hm|].
      rewrite <- ahead_shift. split; [exact Hb|].
      rewrite ahead_seq, Hst, fmap_cons, markWent_position, Hn.
      simpl. reflexivity. }
  split.
  - intros [|k] Hk.
    + exists (initial p heading). by repeat split.
    + destruct (Hnext k) as (s' & Hrun & Hm & Hb & Hst); [lia|].
      exists s'. rewrite Hb. by repeat split.
  - destruct (Hnext m) as (s' & Hrun & Hm & Hb & Hst); [lia|].
    rewrite run_snoc, Hrun, tick_exit, Hst; [reflexivity|exact Hm|].
    by rewrite Hb.
Qed.

Lemma corridor_solved_witness :
  (wellFormed (gridOf Samples.corridor)
   ∧ entersAlong (gridOf Samples.corridor) {| column := 1; row := 0 |} DOWN DOWN
   ∧ (∀ k, (k ≤ 2)%nat →
        openCell (gridOf Samples.corridor)
          (ahead {| column := 1; row := 0 |} DOWN k))
   ∧ (∀ k, (k < 2)%nat →
        isExit (exitsOf Samples.corridor)
          (ahead {| column := 1; row := 0 |} DOWN k) = false)
   ∧ isExit (exitsOf Samples.corridor)
       (ahead {| column := 1; row := 0 |} DOWN 2) = true)
  ∧ (∀ k, (k ≤ 2)%nat →
       ∃ s, run (gridOf Samples.corridor) (exitsOf Samples.corridor) k
              (initial {| column := 1; row := 0 |} DOWN) = Running s
            ∧ mode s = Advancing
            ∧ bot_position (bot s) = ahead {| column := 1; row := 0 |} DOWN k
            ∧ node_position <$> visitedLocations s
              = rev (ahead {| column := 1; row := 0 |} DOWN <$> seq 0 k))
  ∧ run (gridOf Samples.corridor) (exitsOf Samples.corridor) 3
        (initial {| column := 1; row := 0 |} DOWN)
    = Solved (rev (ahead {| column := 1; row := 0 |} DOWN <$> seq 0 2)).
Proof.
  assert (Hwf : wellFormed (gridOf Samples.corridor)).
  { split; [vm_compute; reflexivity|].
    split; [unfold gridOf; simpl; repeat constructor|].
    split; vm_compute; reflexivity. }
  assert (Hopen : ∀ k, (k ≤ 2)%nat →
            openCell (gridOf Samples.corridor)
              (ahead {| column := 1; row := 0 |} DOWN k)).
  { intros [|[|[|k]]] Hk; [| | |lia];
      (split; [vm_compute; discriminate|]);
      (split; [vm_compute; discriminate|]); vm_compute; reflexivity. }
  assert (Hexits : ∀ k, (k < 2)%nat →
            isExit (exitsOf Samples.corridor)
              (ahead {| column := 1; row := 0 |} DOWN k) = false).
  { intros [|[|k]] Hk; [| |lia]; vm_compute; reflexivity. }
  assert (Hexit : isExit (exitsOf Samples.corridor)
                    (ahead {| column := 1; row := 0 |} DOWN 2) = true).
  { vm_compute. reflexivity. }
  split.
  { split; [exact Hwf|]. split; [by left|]. split; [exact Hopen|].
    split; [exact Hexits|exact Hexit]. }
  exact (corridor_solved _ _ _ DOWN DOWN 2%nat Hwf (or_introl eq_refl)
           Hopen Hexits Hexit).
Defined.

(** The corridor of the last column: the scan hands out the heading LEFT
    for its entrance, the first tick turns the robot down the corridor,
    and the run takes the same number of ticks. *)
Example corridor_in_last_column :
  ∃ s, main_rect ["XX "; "XX "; "XX "]%string 0 = Traversal (Running s)
       ∧ bot s = {| bot_position := {| column := 2; row := 0 |};
                    bot_direction := LEFT |}
       ∧ entersAlong (gridOf ["XX "; "XX "; "XX "]%string)
           {| column := 2; row := 0 |} LEFT DOWN
       ∧ main_rect ["XX "; "XX "; "XX "]%string 3
         = Traversal (Solved [ {| column := 2; row := 1 |};
                               {| column := 2; row := 0 |} ]).
Proof.
  eexists. split; [vm_compute; reflexivity|]. split; [reflexivity|].
  split; [|vm_compute; reflexivity].
  right. split; [vm_compute; reflexivity|].
  cbv [perpendicular List.find]. lazy. reflexivity.
Qed.

(** * A maze the engine never leaves *)

Section Ring.

Local Abbreviation ringGrid := (gridOf Samples.ring).
Local Abbreviation ringExits := (exitsOf Samples.ring).
Local Abbreviation ringEntrance := {| column := 2; row := 0 |}.

(** One lap: from the corner (1,2), heading left, the robot is back in
    ten ticks, whatever the stack, which only grows. *)
Lemma ring_lap stack :
  ∃ stack', run ringGrid ringExits 10 (lapState stack)
            = Running (lapState stack').
Proof. eexists. vm_compute. reflexivity. Qed.

Lemma ring_within_lap stack r :
  (r < 10)%nat → ∃ s, run ringGrid ringExits r (lapState stack) = Running s.
Proof.
  intros Hr.
  do 10 (destruct r as [|r]; [eexists; vm_compute; reflexivity|]). lia.
Qed.

Lemma ring_laps k : ∀ stack r,
  (r < 10)%nat →
  ∃ s, run ringGrid ringExits (k * 10 + r) (lapState stack) = Running s.
Proof.
  induction k as [|k IH]; intros stack r Hr.
  - by apply ring_within_lap.
  - replace (S k * 10 + r)%nat with (10 + (k * 10 + r))%nat by lia.
    rewrite run_add. destruct (ring_lap stack) as [stack' ->]. by apply IH.
Qed.

Lemma ring_approach :
  ∃ stack, run ringGrid ringExits 3 (initial ringEntrance DOWN)
           = Running (lapState stack).
Proof. eexists. vm_compute. reflexivity. Qed.

Lemma ring_runs_forever n :
  ∃ s, run ringGrid ringExits n (initial ringEntrance DOWN) = Running s.
Proof.
  destruct (le_lt_dec 3 n) as [Hn|Hn].
  - replace n with (3 + ((n - 3) / 10 * 10 + (n - 3) mod 10))%nat.
    2:{ pose proof (Nat.div_mod_eq (n - 3) 10). lia. }
    rewrite run_add. destruct ring_approach as [stack ->].
    apply ring_laps. apply Nat.mod_upper_bound. discriminate.
  - do 3 (destruct n as [|n]; [eexists; vm_compute; reflexivity|]). lia.
Qed.

Lemma ring_main n :
  main_rect Samples.ring n
  = Traversal (run ringGrid ringExits n (initial ringEntrance DOWN)).
Proof.
  unfold main_rect, main_with, gridOf, exitsOf.
  remember (loadFile rectangular Samples.ring) as loaded eqn:Hloaded.
  vm_compute in Hloaded. subst loaded. cbv beta iota. unfold solve.
  match goal with
  | |- context [findEntryPoints ?g] =>
      remember (findEntryPoints g) as found eqn:Hfound
  end.
  vm_compute in Hfound. subst found. reflexivity.
Qed.

Lemma ring_wellFormed : wellFormed ringGrid.
Proof.
  split; [vm_compute; reflexivity|].
  split; [unfold gridOf; simpl; repeat constructor|].
  split; vm_compute; reflexivity.
Qed.

End Ring.

(** C2, as stated, fails on [Samples.ring], a rectangular grid of six
    rows and six columns: no run of at most 6 * 6 * 4 ticks ends with
    Solved or Stuck. *)
Lemma termination_bound_fails_on_ring :
  wellFormed (gridOf Samples.ring)
  ∧ sRowCount (gridOf Samples.ring) = 6
  ∧ sColumnCount (gridOf Samples.ring) = 6
  ∧ ¬ ∃ n o, (n ≤ 6 * 6 * 4)%nat
             ∧ main_rect Samples.ring n = Traversal o ∧ halted o.
Proof.
  split; [apply ring_wellFormed|].
  split; [vm_compute; reflexivity|]. split; [vm_compute; reflexivity|].
  intros (n & o & _ & Hmain & Hhalt).
  rewrite ring_main in Hmain. destruct (ring_runs_forever n) as [s Hs].
  rewrite Hs in Hmain. injection Hmain as <-.
  destruct Hhalt as [Hstuck|[path Hsolved]]; discriminate.
Qed.

(** C2 (amended).  The engine need not terminate on a valid grid.  It
    keeps no record of the cells it has visited: every Advancing tick
    starts from a fresh node, and nothing stops the robot from entering a
    cell again.  On the rectangular grid [Samples.ring], whose open cells
    contain a cycle, the robot circles for ever: after every number of
    ticks the engine is still running, neither Solved nor Stuck. *)
Theorem ring_never_ends n :
  wellFormed (gridOf Samples.ring)
  ∧ ∃ s, main_rect Samples.ring n = Traversal (Running s).
Proof.
  split; [apply ring_wellFormed|].
  rewrite ring_main. destruct (ring_runs_forever n) as [s Hs].
  exists s. by rewrite Hs.
Qed.

(** * Two-dimensional buffers *)

Import Video.

Section Array2D.

Context {A : Type}.
Implicit Types (a : list (list A)) (x : A).

Lemma write2_inside a r c x rowCount columnCount :
  shape a rowCount columnCount → 0 ≤ r < rowCount → 0 ≤ c < columnCount →
  is_Some (write2 a r c x).
Proof.
  intros [Hrows Hcols] Hrow Hcol. unfold write2.
  destruct (lookup_lt_is_Some_2 a (Z.to_nat r)) as [elements Hf]; [lia|].
  rewrite Hf. simpl. rewrite Forall_forall in Hcols.
  specialize (Hcols elements (list_elem_of_lookup_2 _ _ _ Hf)).
  destruct (decide (Z.to_nat c < length elements)%nat); [eauto|lia].
Qed.

Lemma read2_inside a r c rowCount columnCount :
  shape a rowCount columnCount → 0 ≤ r < rowCount → 0 ≤ c < columnCount →
  is_Some (read2 a r c).
Proof.
  intros [Hrows Hcols] Hrow Hcol. unfold read2.
  destruct (lookup_lt_is_Some_2 a (Z.to_nat r)) as [elements Hf]; [lia|].
  rewrite Hf. simpl. apply lookup_lt_is_Some_2.
  rewrite Forall_forall in Hcols.
  specialize (Hcols elements (list_elem_of_lookup_2 _ _ _ Hf)). lia.
Qed.

Lemma write2_shape a a' r c x rowCount columnCount :
  write2 a r c x = Some a' →
  shape a rowCount columnCount → shape a' rowCount columnCount.
Proof.
  intros Hst [Hrows Hcols]. unfold write2 in Hst.
  destruct (a !! Z.to_nat r) as [elements|] eqn:Hf; simpl in Hst;
    [|discriminate].
  destruct (decide (Z.to_nat c < length elements)%nat); [|discriminate].
  injection Hst as <-. split; [by rewrite length_insert|].
  apply Forall_insert; [exact Hcols|]. rewrite length_insert.
  rewrite Forall_forall in Hcols.
  apply (Hcols elements (list_elem_of_lookup_2 _ _ _ Hf)).
Qed.

Lemma read2_write2_same a a' r c x :
  write2 a r c x = Some a' → read2 a' r c = Some x.
Proof.
  intros Hst. unfold write2 in Hst.
  destruct (a !! Z.to_nat r) as [elements|] eqn:Hf; simpl in Hst;
    [|discriminate].
  destruct (decide (Z.to_nat c < length elements)%nat); [|discriminate].
  injection Hst as <-. unfold read2.
  rewrite list_lookup_insert_eq by (eapply lookup_lt_Some; eassumption).
  simpl. by apply list_lookup_insert_eq.
Qed.

Lemma read2_write2_other a a' r c x r' c' :
  0 ≤ r → 0 ≤ c → 0 ≤ r' → 0 ≤ c' → (r' ≠ r ∨ c' ≠ c) →
  write2 a r c x = Some a' → read2 a' r' c' = read2 a r' c'.
Proof.
  intros Hr Hc Hr' Hc' Hne Hst. unfold write2 in Hst.
  destruct (a !! Z.to_nat r) as [elements|] eqn:Hf; simpl in Hst;
    [|discriminate].
  destruct (decide (Z.to_nat c < length elements)%nat); [|discriminate].
  injection Hst as <-. unfold read2.
  destruct (decide (Z.to_nat r' = Z.to_nat r)) as [Heq|Hrow].
  - rewrite Heq, list_lookup_insert_eq, Hf
      by (eapply lookup_lt_Some; eassumption).
    simpl. apply list_lookup_insert_ne. lia.
  - by rewrite list_lookup_insert_ne.
Qed.

End Array2D.

Section Storage.

Variables (m m' : list (list bool)) (r c : Z) (v : bool).

Lemma store_inside rowCount columnCount :
  shape m rowCount columnCount → 0 ≤ r < rowCount → 0 ≤ c < columnCount →
  is_Some (store m r c v).
Proof. apply (write2_inside m r c v). Qed.

Lemma store_shape rowCount columnCount :
  store m r c v = Some m' →
  shape m rowCount columnCount → shape m' rowCount columnCount.
Proof. apply (write2_shape m m' r c v). Qed.

Lemma cell_store_same : store m r c v = Some m' → cell m' r c = Some v.
Proof. apply (read2_write2_same m m' r c v). Qed.

Lemma cell_store_other r' c' :
  0 ≤ r → 0 ≤ c → 0 ≤ r' → 0 ≤ c' → (r' ≠ r ∨ c' ≠ c) →
  store m r c v = Some m' → cell m' r' c' = cell m r' c'.
Proof. apply (read2_write2_other m m' r c v r' c'). Qed.

End Storage.

(** * Reading the file *)

Section ReadLines.

Lemma to_size_succ x : to_size (to_size x + 1) = to_size (x + 1).
Proof. unfold to_size. by rewrite Zplus_mod_idemp_l. Qed.

Lemma length_list_ascii_of_string s :
  length (String.list_ascii_of_string s) = String.length s.
Proof. induction s as [|a s IH]; simpl; congruence. Qed.

(** Once the width is known, the loop accepts exactly the lines of that
    width. *)
Lemma readLines_width lines : ∀ width count fileBuffer,
  0 < width →
  readLines lines width (to_size count) fileBuffer
  = if forallb (λ l, Z.of_nat (String.length l) =? width) (nonEmptyLines lines)
    then Some (width,
               to_size (count + Z.of_nat (length (nonEmptyLines lines))),
               fileBuffer ++ bufferOf lines)
    else None.
Proof.
  unfold bufferOf.
  induction lines as [|l lines IH]; intros width count fileBuffer Hw.
  - simpl. by rewrite Z.add_0_r, app_nil_r.
  - cbn [readLines nonEmptyLines List.filter].
    fold (nonEmptyLines lines).
    destruct (Z.of_nat (String.length l) =? 0) eqn:Hempty; cbn [negb].
    + apply IH, Hw.
    + assert ((width =? 0) = false) as -> by (apply Z.eqb_neq; lia).
      cbn [forallb]. rewrite (Z.eqb_sym (Z.of_nat _) width).
      destruct (width =? Z.of_nat (String.length l)) eqn:Hsame; cbn [negb andb].
      * rewrite to_size_succ, IH by exact Hw.
        destruct (forallb _ _); [|reflexivity].
        rewrite fmap_cons. cbn [concat length]. rewrite <- app_assoc.
        do 4 f_equal. lia.
      * reflexivity.
Qed.

Lemma length_concat_uniform (ls : list string) w :
  Forall (λ l, Z.of_nat (String.length l) = w) ls →
  Z.of_nat (length (concat (String.list_ascii_of_string <$> ls)))
  = Z.of_nat (length ls) * w.
Proof.
  induction 1 as [|l ls Hl Hls IH]; [reflexivity|].
  rewrite fmap_cons. cbn [concat].
  rewrite length_app, length_list_ascii_of_string. cbn [length]. lia.
Qed.

End ReadLines.

Lemma readLines_closed_form lines :
  readLines lines 0 0 []
  = if uniformLines lines
    then Some (lineWidth lines,
               to_size (Z.of_nat (length (nonEmptyLines lines))),
               bufferOf lines)
    else None.
Proof.
  unfold uniformLines, lineWidth, bufferOf.
  induction lines as [|l lines IH]; [reflexivity|].
  cbn [readLines nonEmptyLines List.filter]. fold (nonEmptyLines lines).
  destruct (Z.of_nat (String.length l) =? 0) eqn:Hempty; cbn [negb].
  - exact IH.
  - cbn [Z.eqb forallb]. rewrite Z.eqb_refl. cbn [andb].
    apply Z.eqb_neq in Hempty.
    change (to_size (0 + 1)) with (to_size 1).
    rewrite (readLines_width lines _ 1) by lia. clear IH.
    destruct (forallb _ (nonEmptyLines lines)); [|reflexivity].
    rewrite fmap_cons. cbn [concat length app]. do 4 f_equal. lia.
Qed.

(** X1.  A file whose lines all fit the buffer of [getline] (fewer than 256
    characters, no NUL) is accepted exactly when all its non-empty lines
    are as long as the first of them; then [sColumnCount] is that length,
    [sRowCount] the number of non-empty lines (modulo 2^64), and
    [fileBuffer] their concatenation, empty lines being skipped.
    Otherwise the proportions are reported inconsistent. *)
Theorem readLines_uniform lines :
  forallb fitsBuffer lines = true →
  readLines lines 0 0 []
  = if uniformLines lines
    then Some (lineWidth lines,
               to_size (Z.of_nat (length (nonEmptyLines lines))),
               bufferOf lines)
    else None.
Proof. intros _. apply readLines_closed_form. Qed.

Lemma readLines_uniform_witness :
  (forallb fitsBuffer ["X X"; ""; "X O"; ""]%string = true
   ∧ forallb fitsBuffer ["X X"; "X  X"]%string = true)
  ∧ readLines ["X X"; ""; "X O"; ""]%string 0 0 []
    = Some (3, 2, String.list_ascii_of_string "X XX O")
  ∧ readLines ["X X"; "X  X"]%string 0 0 [] = None.
Proof.
  assert (Hfit : forallb fitsBuffer ["X X"; ""; "X O"; ""]%string = true)
    by reflexivity.
  assert (Hfit' : forallb fitsBuffer ["X X"; "X  X"]%string = true)
    by reflexivity.
  split; [split; [exact Hfit|exact Hfit']|].
  split.
  - exact (readLines_uniform ["X X"; ""; "X O"; ""]%string Hfit).
  - exact (readLines_uniform ["X X"; "X  X"]%string Hfit').
Defined.

(** X2.  For a file whose lines all fit the buffer of [getline], the buffer
    handed to [load] holds [sRowCount * sColumnCount] characters: every
    non-empty line has [sColumnCount] of them and [sRowCount] counts the
    non-empty lines. *)
Theorem readLines_buffer_length lines columnCount rowCount fileBuffer :
  forallb fitsBuffer lines = true →
  readLines lines 0 0 [] = Some (columnCount, rowCount, fileBuffer) →
  Z.of_nat (length (nonEmptyLines lines)) < 2 ^ 64 →
  Z.of_nat (length fileBuffer) = rowCount * columnCount
  ∧ rowCount = Z.of_nat (length (nonEmptyLines lines))
  ∧ Forall (λ l, Z.of_nat (String.length l) = columnCount)
           (nonEmptyLines lines).
Proof.
  intros _. rewrite readLines_closed_form. unfold uniformLines.
  destruct (forallb _ _) eqn:Hall; [|discriminate].
  intros [= <- <- <-] Hrows.
  assert (Hw : Forall (λ l, Z.of_nat (String.length l) = lineWidth lines)
                 (nonEmptyLines lines)).
  { apply Forall_forall. intros l Hl. apply Z.eqb_eq.
    rewrite forallb_forall in Hall. apply Hall. by apply list_elem_of_In. }
  split; [|split; [|exact Hw]].
  - unfold to_size. rewrite Z.mod_small by lia. unfold bufferOf.
    by apply length_concat_uniform.
  - unfold to_size. apply Z.mod_small. lia.
Qed.

Lemma readLines_buffer_length_witness :
  (forallb fitsBuffer ["X X"; ""; "X O"]%string = true
   ∧ readLines ["X X"; ""; "X O"]%string 0 0 []
     = Some (3, 2, String.list_ascii_of_string "X XX O")
   ∧ Z.of_nat (length (nonEmptyLines ["X X"; ""; "X O"]%string)) < 2 ^ 64)
  ∧ Z.of_nat (length (String.list_ascii_of_string "X XX O")) = 2 * 3
  ∧ 2 = Z.of_nat (length (nonEmptyLines ["X X"; ""; "X O"]%string))
  ∧ Forall (λ l, Z.of_nat (String.length l) = 3)
      (nonEmptyLines ["X X"; ""; "X O"]%string).
Proof.
  assert (Hfit : forallb fitsBuffer ["X X"; ""; "X O"]%string = true)
    by reflexivity.
  assert (Hread : readLines ["X X"; ""; "X O"]%string 0 0 []
                  = Some (3, 2, String.list_ascii_of_string "X XX O"))
    by reflexivity.
  assert (Hrows : Z.of_nat (length (nonEmptyLines ["X X"; ""; "X O"]%string))
                  < 2 ^ 64) by reflexivity.
  split; [split; [exact Hfit|split; [exact Hread|exact Hrows]]|].
  exact (readLines_buffer_length _ 3 2 _ Hfit Hread Hrows).
Defined.

(** * The loop of [load] on storage of the right shape *)

Section LoadLoop.

Variables rowCount columnCount : Z.
Hypothesis Hcc : 0 < columnCount.

Lemma index_inside i :
  0 ≤ i < rowCount * columnCount →
  0 ≤ i / columnCount < rowCount ∧ 0 ≤ i mod columnCount < columnCount.
Proof.
  intros Hi. pose proof (Z.mod_pos_bound i columnCount Hcc).
  split; [|lia]. split; [apply Z.div_pos; lia|].
  apply Z.div_lt_upper_bound; lia.
Qed.

Lemma index_apart i j :
  i ≠ j →
  i / columnCount ≠ j / columnCount ∨ i mod columnCount ≠ j mod columnCount.
Proof.
  intros Hne.
  destruct (decide (i / columnCount = j / columnCount)) as [Hd|]; [|by left].
  right. intros Hm. apply Hne.
  rewrite (Z.div_mod i columnCount), (Z.div_mod j columnCount) by lia.
  by rewrite Hd, Hm.
Qed.

(** The loop over [data] on storage of the right shape: no write falls
    outside, the characters of [data] determine the flags of their cells,
    the other cells keep their flags, and one exit is recorded for each
    'O'. *)
Lemma load_loop_shape data : ∀ iteration m results,
  shape m rowCount columnCount → 0 ≤ iteration →
  iteration + Z.of_nat (length data) ≤ rowCount * columnCount →
  ∃ m' results',
    load_loop columnCount data iteration m results = Some (m', results')
    ∧ shape m' rowCount columnCount
    ∧ (∀ j ch, data !! j = Some ch →
         cell m' ((iteration + Z.of_nat j) / columnCount)
                 ((iteration + Z.of_nat j) mod columnCount)
         = Some (Ascii.eqb ch "X"))
    ∧ (∀ i, 0 ≤ i →
         i < iteration ∨ iteration + Z.of_nat (length data) ≤ i →
         cell m' (i / columnCount) (i mod columnCount)
         = cell m (i / columnCount) (i mod columnCount))
    ∧ (∀ e, e ∈ results' ↔
         e ∈ results
         ∨ ∃ j, data !! j = Some "O"%char
                ∧ e = markedExit columnCount (iteration + Z.of_nat j)).
Proof.
  induction data as [|ch data IH]; intros iteration m results Hm Hi Hlen.
  - exists m, results. split; [reflexivity|]. split; [exact Hm|].
    split; [intros j ch Hj; by rewrite lookup_nil in Hj|].
    split; [reflexivity|]. intros e. split; [by left|].
    intros [He|(j & Hj & _)]; [exact He|by rewrite lookup_nil in Hj].
  - cbn [length] in Hlen. cbn [load_loop].
    assert ((columnCount =? 0) = false) as -> by (apply Z.eqb_neq; lia).
    destruct (index_inside iteration) as [Hrow Hcol]; [lia|].
    assert (Hstore : ∀ v, ∃ m1,
              store m (iteration / columnCount) (iteration mod columnCount) v
              = Some m1).
    { intros v. by apply (store_inside m _ _ v rowCount columnCount). }
    assert (Hstep : ∀ v results1,
      (∀ e, e ∈ results1 ↔
            e ∈ results
            ∨ (ch = "O"%char ∧ e = markedExit columnCount iteration)) →
      v = Ascii.eqb ch "X" →
      ∃ m' results',
        (store m (iteration / columnCount) (iteration mod columnCount) v
           ≫= λ m1, load_loop columnCount data (iteration + 1) m1 results1)
        = Some (m', results')
        ∧ shape m' rowCount columnCount
        ∧ (∀ j ch', (ch :: data) !! j = Some ch' →
             cell m' ((iteration + Z.of_nat j) / columnCount)
                     ((iteration + Z.of_nat j) mod columnCount)
             = Some (Ascii.eqb ch' "X"))
        ∧ (∀ i, 0 ≤ i →
             i < iteration ∨ iteration + Z.of_nat (S (length data)) ≤ i →
             cell m' (i / columnCount) (i mod columnCount)
             = cell m (i / columnCount) (i mod columnCount))
        ∧ (∀ e, e ∈ results' ↔
             e ∈ results
             ∨ ∃ j, (ch :: data) !! j = Some "O"%char
                    ∧ e = markedExit columnCount (iteration + Z.of_nat j))).
    { intros v results1 Hres ->. destruct (Hstore (Ascii.eqb ch "X")) as [m1 Hm1].
      rewrite Hm1. cbn [mbind option_bind].
      destruct (IH (iteration + 1) m1 results1)
        as (m' & results' & Hrun & Hshape & Hcells & Hframe & Hexits);
        [eapply store_shape; eassumption|lia|lia|].
      exists m', results'. split; [exact Hrun|]. split; [exact Hshape|].
      split; [|split].
      - intros [|j] ch' Hj.
        + injection Hj as <-. change (Z.of_nat 0) with 0. rewrite Z.add_0_r.
          rewrite Hframe by lia.
          eapply cell_store_same, Hm1.
        + specialize (Hcells j ch' Hj).
          by replace (iteration + Z.of_nat (S j))
            with (iteration + 1 + Z.of_nat j) by lia.
      - intros i Hi0 Hout. rewrite Hframe by lia.
        eapply cell_store_other; [| | | | |exact Hm1]; try lia.
        + apply Z.div_pos; lia.
        + apply Z.mod_pos_bound. lia.
        + apply index_apart. lia.
      - intros e. rewrite Hexits, Hres. split.
        + intros [[He | [-> ->]] | (j & Hj & ->)].
          * by left.
          * right. exists 0%nat. split; [reflexivity|].
            change (Z.of_nat 0) with 0. by rewrite Z.add_0_r.
          * right. exists (S j). split; [exact Hj|]. f_equal. lia.
        + intros [He | ([|j] & Hj & ->)].
          * by left; left.
          * injection Hj as ->. left; right. split; [reflexivity|].
            change (Z.of_nat 0) with 0. by rewrite Z.add_0_r.
          * right. exists j. split; [exact Hj|]. f_equal. lia. }
    destruct (Ascii.eqb ch "O") eqn:HO.
    + apply Ascii.eqb_eq in HO. subst ch.
      apply Hstep; [|reflexivity].
      intros e. rewrite elem_of_app, list_elem_of_singleton. split.
      * intros [He | ->]; [by left|by right].
      * intros [He | [_ ->]]; [by left|by right].
    + apply Hstep; [|reflexivity].
      intros e. split; [by left|]. intros [He | [-> _]]; [exact He|].
      discriminate.
Qed.

End LoadLoop.

Lemma load_with_shape alloc rowCount columnCount (data : list ascii) :
  0 < columnCount →
  shape (alloc rowCount columnCount) rowCount columnCount →
  Z.of_nat (length data) = rowCount * columnCount →
  ∃ g userExits,
    load_with alloc rowCount columnCount data = Some (g, userExits)
    ∧ sRowCount g = rowCount ∧ sColumnCount g = columnCount
    ∧ shape (sMaze g) rowCount columnCount
    ∧ (∀ j ch, data !! j = Some ch →
         cell (sMaze g) (Z.of_nat j / columnCount) (Z.of_nat j mod columnCount)
         = Some (Ascii.eqb ch "X"))
    ∧ (∀ e, e ∈ userExits ↔
         ∃ j, data !! j = Some "O"%char
              ∧ e = markedExit columnCount (Z.of_nat j)).
Proof.
  intros Hcc Hshape Hlen. unfold load_with.
  destruct (load_loop_shape rowCount columnCount Hcc data 0
              (alloc rowCount columnCount) [])
    as (m & results & -> & Hm & Hcells & _ & Hexits); [exact Hshape|lia|lia|].
  cbn [mbind option_bind]. eexists _, _. split; [reflexivity|].
  cbn [sMaze sRowCount sColumnCount].
  split; [reflexivity|]. split; [reflexivity|]. split; [exact Hm|].
  split; [exact Hcells|]. intros e. rewrite Hexits. split.
  - intros [He|He]; [by apply elem_of_nil in He|exact He].
  - intros He. by right.
Qed.

(** X3.  [load] on storage of [rowCount] rows of [columnCount] flags, whoever
    allocated it, for a buffer of [rowCount * columnCount] characters:
    it succeeds, the grid keeps its shape, the cell of each character is a
    wall exactly when the character is 'X' (so the cell of an 'O' is
    open), and the exits recorded are the cells of the 'O' characters. *)
Theorem load_round_trip alloc rowCount columnCount (data : list ascii) :
  0 < columnCount →
  shape (alloc rowCount columnCount) rowCount columnCount →
  Z.of_nat (length data) = rowCount * columnCount →
  ∃ g userExits,
    load_with alloc rowCount columnCount data = Some (g, userExits)
    ∧ sRowCount g = rowCount ∧ sColumnCount g = columnCount
    ∧ shape (sMaze g) rowCount columnCount
    ∧ (∀ j ch, data !! j = Some ch →
         cell (sMaze g) (Z.of_nat j / columnCount) (Z.of_nat j mod columnCount)
         = Some (Ascii.eqb ch "X"))
    ∧ (∀ e, e ∈ userExits ↔
         ∃ j, data !! j = Some "O"%char
              ∧ e = markedExit columnCount (Z.of_nat j)).
Proof. apply load_with_shape. Qed.

Lemma load_round_trip_witness :
  (0 < 3
   ∧ shape (rectangular 2 3) 2 3
   ∧ Z.of_nat (length (String.list_ascii_of_string "XO X.X")) = 2 * 3)
  ∧ ∃ g userExits,
      load_with rectangular 2 3 (String.list_ascii_of_string "XO X.X")
      = Some (g, userExits)
      ∧ sRowCount g = 2 ∧ sColumnCount g = 3
      ∧ shape (sMaze g) 2 3
      ∧ (∀ j ch, String.list_ascii_of_string "XO X.X" !! j = Some ch →
           cell (sMaze g) (Z.of_nat j / 3) (Z.of_nat j mod 3)
           = Some (Ascii.eqb ch "X"))
      ∧ (∀ e, e ∈ userExits ↔
           ∃ j, String.list_ascii_of_string "XO X.X" !! j = Some "O"%char
                ∧ e = markedExit 3 (Z.of_nat j)).
Proof.
  assert (Hshape : shape (rectangular 2 3) 2 3).
  { split; [reflexivity|]. repeat constructor. }
  split; [split; [lia|split; [exact Hshape|reflexivity]]|].
  apply (load_round_trip rectangular 2 3
           (String.list_ascii_of_string "XO X.X"));
    [lia|exact Hshape|reflexivity].
Defined.

(** X4.  [load] as written does work for a maze of a single column: the one
    flag it allocates per row is all such a maze needs. *)
Theorem load_single_column rowCount (data : list ascii) :
  Z.of_nat (length data) = rowCount →
  ∃ g userExits,
    load rowCount 1 data = Some (g, userExits)
    ∧ shape (sMaze g) rowCount 1
    ∧ (∀ j ch, data !! j = Some ch →
         cell (sMaze g) (Z.of_nat j) 0 = Some (Ascii.eqb ch "X")).
Proof.
  intros Hlen. unfold load, load_with.
  destruct (load_loop_shape rowCount 1 eq_refl data 0 (allocate rowCount 1) [])
    as (m & results & -> & Hm & Hcells & _ & _); [|lia|lia|].
  { unfold allocate. split; [rewrite length_replicate; lia|].
    apply Forall_replicate. reflexivity. }
  cbn [mbind option_bind]. eexists _, _. split; [reflexivity|].
  split; [exact Hm|]. intros j ch Hj. specialize (Hcells j ch Hj).
  by rewrite Z.add_0_l, Z.div_1_r, Z.mod_1_r in Hcells.
Qed.

Lemma load_single_column_witness :
  Z.of_nat (length (String.list_ascii_of_string "X X")) = 3
  ∧ ∃ g userExits,
      load 3 1 (String.list_ascii_of_string "X X") = Some (g, userExits)
      ∧ shape (sMaze g) 3 1
      ∧ (∀ j ch, String.list_ascii_of_string "X X" !! j = Some ch →
           cell (sMaze g) (Z.of_nat j) 0 = Some (Ascii.eqb ch "X")).
Proof.
  split; [reflexivity|].
  apply (load_single_column 3 (String.list_ascii_of_string "X X")).
  reflexivity.
Defined.

(** * More on the boundary scan *)

Section Indices.

Lemma indices_cons n : 0 < n → ∃ rest, indices n = 0 :: rest.
Proof.
  intros Hn. unfold indices.
  destruct (Z.to_nat n) as [|k] eqn:Hk; [lia|]. simpl. eauto.
Qed.

Lemma indices_range n x : x ∈ indices n → 0 ≤ x < n.
Proof.
  unfold indices. intros (k & -> & Hk)%list_elem_of_fmap.
  apply elem_of_seq in Hk. lia.
Qed.

Lemma indices_NoDup n : NoDup (indices n).
Proof.
  unfold indices. apply NoDup_fmap; [apply Nat2Z.inj'|apply NoDup_seq].
Qed.

Lemma Vector2D_of_sizes_small c r :
  0 ≤ c < 2 ^ 31 → 0 ≤ r < 2 ^ 31 →
  Vector2D_of_sizes c r = {| column := c; row := r |}.
Proof.
  unfold Vector2D_of_sizes, mkVector2D. machine. intros Hc Hr.
  f_equal; Z.div_mod_to_equations; lia.
Qed.

End Indices.

Section ScanMore.

Variable g : Grid.

Lemma scanColumns_length r columns found :
  scanColumns g r columns = Some found → (length found ≤ 1)%nat.
Proof.
  revert found. induction columns as [|c rest IH]; intros found; simpl.
  - intros [= <-]. simpl. lia.
  - destruct (cell (sMaze g) r c) as [[]|]; simpl; [|by intros [= <-]|done].
    destruct (cell (sMaze g) r 0) as [[]|]; simpl; [|by intros [= <-]|done].
    destruct (cell (sMaze g) r (to_size _)) as [[]|]; simpl; [|by intros [= <-]|done].
    apply IH.
Qed.

(** With a wall in column 0, the side test on column 0 never fires. *)
Lemma scanColumns_wall_first r columns found :
  cell (sMaze g) r 0 = Some true →
  scanColumns g r columns = Some found →
  Forall (λ e, exit_direction e ≠ Some RIGHT) found.
Proof.
  intros Hwall. revert found.
  induction columns as [|c rest IH]; intros found; simpl.
  - intros [= <-]. constructor.
  - destruct (cell (sMaze g) r c) as [[]|]; simpl; [| |done].
    2:{ intros [= <-]. repeat constructor. simpl. by destruct (r =? 0). }
    rewrite Hwall. simpl.
    destruct (cell (sMaze g) r (to_size _)) as [[]|]; simpl; [| |done].
    + apply IH.
    + intros [= <-]. by repeat constructor.
Qed.

Lemma scanColumns_no_right r found :
  scanColumns g r (indices (sColumnCount g)) = Some found →
  Forall (λ e, exit_direction e ≠ Some RIGHT) found.
Proof.
  destruct (Z_lt_le_dec 0 (sColumnCount g)) as [Hcc|Hcc].
  - destruct (indices_cons _ Hcc) as [rest ->]. simpl.
    destruct (cell (sMaze g) r 0) as [[]|] eqn:Hfirst; simpl; [| |done].
    + destruct (cell (sMaze g) r (to_size _)) as [[]|]; simpl; [| |done].
      * by apply scanColumns_wall_first.
      * intros [= <-]. by repeat constructor.
    + intros [= <-]. repeat constructor. simpl. by destruct (r =? 0).
  - unfold indices. replace (Z.to_nat (sColumnCount g)) with 0%nat by lia.
    simpl. intros [= <-]. constructor.
Qed.

Lemma scanRows_Forall (Q : ExitInformation → Prop) rows :
  (∀ r found, r ∈ rows →
     scanColumns g r (indices (sColumnCount g)) = Some found →
     Forall Q found) →
  ∀ result entrances,
  scanRows g rows result = Some entrances →
  Forall Q result → Forall Q entrances.
Proof.
  induction rows as [|r rest IH]; intros Hcols result entrances; simpl.
  - by intros [= <-].
  - assert (Hrest : ∀ r' found, r' ∈ rest →
              scanColumns g r' (indices (sColumnCount g)) = Some found →
              Forall Q found).
    { intros r' found Hr'. apply Hcols. by right. }
    destruct ((r =? 0) || (r =? to_size (sRowCount g - 1))).
    + destruct (scanColumns g r (indices (sColumnCount g))) as [found|] eqn:Hf;
        simpl; [|discriminate].
      intros Hscan Hres. apply (IH Hrest _ _ Hscan).
      apply Forall_app. split; [exact Hres|].
      eapply Hcols; [by left|exact Hf].
    + by apply IH.
Qed.

Lemma scanRows_prefix rows : ∀ result entrances,
  scanRows g rows result = Some entrances →
  ∃ more, entrances = result ++ more.
Proof.
  induction rows as [|r rest IH]; intros result entrances; simpl.
  - intros [= <-]. exists []. by rewrite app_nil_r.
  - destruct ((r =? 0) || (r =? to_size (sRowCount g - 1))); [|apply IH].
    destruct (scanColumns g r (indices (sColumnCount g))) as [found|];
      simpl; [|discriminate].
    intros (more & ->)%IH. exists (found ++ more). by rewrite app_assoc.
Qed.

Lemma scanRows_length rows : ∀ result entrances,
  scanRows g rows result = Some entrances →
  (length entrances
   ≤ length result
     + length (filter (boundaryIndex g) rows))%nat.
Proof.
  induction rows as [|r rest IH]; intros result entrances; simpl.
  - intros [= <-]. lia.
  - destruct ((r =? 0) || (r =? to_size (sRowCount g - 1))) eqn:Hr.
    + destruct (scanColumns g r (indices (sColumnCount g))) as [found|] eqn:Hf;
        simpl; [|discriminate].
      intros Hscan. apply IH in Hscan. rewrite length_app in Hscan.
      apply scanColumns_length in Hf.
      rewrite filter_cons_True; [simpl; lia|].
      unfold boundaryIndex.
      apply orb_true_iff in Hr as [Hr|Hr]; apply Z.eqb_eq in Hr; auto.
    + intros Hscan. apply IH in Hscan.
      rewrite filter_cons_False; [exact Hscan|].
      apply orb_false_iff in Hr as [H0 HL].
      apply Z.eqb_neq in H0, HL. unfold boundaryIndex. tauto.
Qed.

End ScanMore.

(** X5.  The scan returns at most two openings: at most one for the first row
    and at most one for the last. *)
Theorem findEntryPoints_at_most_two g entrances :
  findEntryPoints g = Some entrances → (length entrances ≤ 2)%nat.
Proof.
  intros Hscan. apply scanRows_length in Hscan. simpl in Hscan.
  etransitivity; [exact Hscan|].
  assert (Hsub : filter (boundaryIndex g) (indices (sRowCount g))
                 ⊆+ [0; to_size (sRowCount g - 1)]).
  { apply NoDup_submseteq; [apply NoDup_filter, indices_NoDup|].
    intros r [Hr _]%list_elem_of_filter.
    destruct Hr as [-> | ->]; [by left|by right; left]. }
  apply submseteq_length in Hsub. exact Hsub.
Qed.

Lemma findEntryPoints_at_most_two_witness :
  findEntryPoints (gridOf Samples.unregistered_opening)
  = Some [ {| exit_position := {| column := 1; row := 0 |};
              exit_direction := Some DOWN |};
           {| exit_position := {| column := 0; row := 2 |};
              exit_direction := Some UP |} ]
  ∧ (length [ {| exit_position := {| column := 1; row := 0 |};
                 exit_direction := Some DOWN |};
              {| exit_position := {| column := 0; row := 2 |};
                 exit_direction := Some UP |} ] ≤ 2)%nat.
Proof.
  assert (H : findEntryPoints (gridOf Samples.unregistered_opening)
              = Some [ {| exit_position := {| column := 1; row := 0 |};
                          exit_direction := Some DOWN |};
                       {| exit_position := {| column := 0; row := 2 |};
                          exit_direction := Some UP |} ])
    by (vm_compute; reflexivity).
  split; [exact H|].
  exact (findEntryPoints_at_most_two _ _ H).
Defined.

(** X6.  The scan never hands out the heading RIGHT, nor an undefined one: the
    side test on column 0 sits behind a test that has found a wall in
    column 0. *)
Theorem findEntryPoints_never_right g entrances :
  findEntryPoints g = Some entrances →
  Forall (λ e, exit_direction e ≠ Some RIGHT ∧ exit_direction e ≠ None)
         entrances.
Proof.
  intros Hscan.
  eapply (scanRows_Forall g _ (indices (sRowCount g))); [|exact Hscan|constructor].
  intros r found _ Hfound.
  pose proof (scanColumns_no_right g r found Hfound) as Hright.
  apply Forall_forall. intros e He. split.
  - rewrite Forall_forall in Hright. by apply Hright.
  - clear Hright. revert found Hfound He.
    induction (indices (sColumnCount g)) as [|c rest IH]; intros found; simpl.
    + intros [= <-] He. by apply elem_of_nil in He.
    + destruct (cell (sMaze g) r c) as [[]|]; simpl; [| |done].
      2:{ intros [= <-] ->%list_elem_of_singleton. done. }
      destruct (cell (sMaze g) r 0) as [[]|]; simpl; [| |done].
      2:{ intros [= <-] ->%list_elem_of_singleton. done. }
      destruct (cell (sMaze g) r (to_size _)) as [[]|]; simpl; [| |done].
      * apply IH.
      * intros [= <-] ->%list_elem_of_singleton. done.
Qed.

Lemma findEntryPoints_never_right_witness :
  findEntryPoints (gridOf ["X  "; " XX"; "XXX"]%string)
  = Some [ {| exit_position := {| column := 2; row := 0 |};
              exit_direction := Some LEFT |} ]
  ∧ Forall (λ e, exit_direction e ≠ Some RIGHT ∧ exit_direction e ≠ None)
      [ {| exit_position := {| column := 2; row := 0 |};
           exit_direction := Some LEFT |} ].
Proof.
  assert (H : findEntryPoints (gridOf ["X  "; " XX"; "XXX"]%string)
              = Some [ {| exit_position := {| column := 2; row := 0 |};
                          exit_direction := Some LEFT |} ])
    by (vm_compute; reflexivity).
  split; [exact H|].
  exact (findEntryPoints_never_right _ _ H).
Defined.

Section ScanSafe.

Variable g : Grid.
Hypothesis Hwf : wellFormed g.

Lemma openCell_of_sizes c r :
  0 ≤ c < 2 ^ 31 → 0 ≤ r < 2 ^ 31 →
  cell (sMaze g) r c = Some false → openCell g (Vector2D_of_sizes c r).
Proof.
  intros Hc Hr Hcell. rewrite Vector2D_of_sizes_small by assumption.
  unfold openCell. simpl. split; [lia|]. split; [lia|exact Hcell].
Qed.

Lemma scanColumns_sound r columns :
  0 ≤ r < sRowCount g →
  Forall (λ c, 0 ≤ c < sColumnCount g) columns →
  ∃ found, scanColumns g r columns = Some found
           ∧ Forall (λ e, openCell g (exit_position e)
                          ∧ row (exit_position e) = r) found.
Proof.
  intros Hr Hcols. pose proof Hwf as (_ & _ & Hr31 & Hc31).
  induction Hcols as [|c rest Hc Hrest IH]; simpl.
  { exists []. by split. }
  destruct (cell_inside g Hwf r c Hr Hc) as [w Hw]. rewrite Hw. simpl.
  destruct w; simpl.
  2:{ eexists. split; [reflexivity|]. constructor; [|constructor].
      cbn [exit_position]. split; [apply openCell_of_sizes; (lia || exact Hw)|].
      rewrite Vector2D_of_sizes_small by lia. reflexivity. }
  destruct (cell_inside g Hwf r 0 Hr) as [w0 Hw0]; [lia|].
  rewrite Hw0. simpl. destruct w0; simpl.
  2:{ eexists. split; [reflexivity|]. constructor; [|constructor].
      cbn [exit_position]. split; [apply openCell_of_sizes; (lia || exact Hw0)|].
      rewrite Vector2D_of_sizes_small by lia. reflexivity. }
  assert (Hlast : to_size (sColumnCount g - 1) = sColumnCount g - 1).
  { revert Hc31. machine. intros. apply Z.mod_small. lia. }
  rewrite Hlast.
  destruct (cell_inside g Hwf r (sColumnCount g - 1) Hr) as [wl Hwl]; [lia|].
  rewrite Hwl. simpl. destruct wl; simpl; [exact IH|].
  eexists. split; [reflexivity|]. constructor; [|constructor].
  cbn [exit_position]. split; [apply openCell_of_sizes; (lia || exact Hwl)|].
      rewrite Vector2D_of_sizes_small by lia. reflexivity.
Qed.

Lemma scanRows_sound rows : ∀ result,
  Forall (λ r, 0 ≤ r < sRowCount g) rows →
  Forall (onBoundary g) result →
  ∃ entrances, scanRows g rows result = Some entrances
               ∧ Forall (onBoundary g) entrances.
Proof.
  pose proof Hwf as (_ & _ & Hr31 & _).
  induction rows as [|r rest IH]; intros result Hrows Hres; simpl.
  { exists result. by split. }
  apply Forall_cons in Hrows as [Hr Hrows].
  destruct ((r =? 0) || (r =? to_size (sRowCount g - 1))) eqn:Hb;
    [|by apply IH].
  destruct (scanColumns_sound r (indices (sColumnCount g)) Hr)
    as (found & -> & Hfound).
  { apply Forall_forall. intros c. apply indices_range. }
  simpl. apply IH; [exact Hrows|]. apply Forall_app. split; [exact Hres|].
  eapply Forall_impl; [exact Hfound|]. intros e [Hopen Hrow].
  split; [exact Hopen|]. rewrite Hrow.
  apply orb_true_iff in Hb as [Hb|Hb]; apply Z.eqb_eq in Hb; [by left|right].
  rewrite Hb. revert Hr31. machine. intros. apply Z.mod_small. lia.
Qed.

End ScanSafe.

(** X7.  On a rectangular grid the scan reads no flag outside the grid, and
    every opening it returns is an open cell of the first or of the last
    row of the grid. *)
Theorem findEntryPoints_safe g :
  wellFormed g →
  ∃ entrances, findEntryPoints g = Some entrances
               ∧ Forall (onBoundary g) entrances.
Proof.
  intros Hwf. apply (scanRows_sound g Hwf); [|constructor].
  apply Forall_forall. intros r. apply indices_range.
Qed.

Lemma findEntryPoints_safe_witness :
  wellFormed (gridOf Samples.unregistered_opening)
  ∧ ∃ entrances,
      findEntryPoints (gridOf Samples.unregistered_opening) = Some entrances
      ∧ Forall (onBoundary (gridOf Samples.unregistered_opening)) entrances.
Proof.
  assert (Hwf : wellFormed (gridOf Samples.unregistered_opening)).
  { split; [vm_compute; reflexivity|].
    split; [unfold gridOf; simpl; repeat constructor|].
    split; vm_compute; reflexivity. }
  split; [exact Hwf|]. exact (findEntryPoints_safe _ Hwf).
Defined.

(** X8.  The corners of the first row decide the entrance [main] picks.  With
    the first cell of the first row open, the robot starts there heading
    DOWN.  With a wall there and the last cell of the first row open, the
    robot starts on that last cell heading LEFT, whatever openings the
    first row has in between. *)
Theorem findEntryPoints_first_row_corners g entrances :
  0 < sRowCount g → 0 < sColumnCount g →
  findEntryPoints g = Some entrances →
  (cell (sMaze g) 0 0 = Some false →
   ∃ more, entrances
           = {| exit_position := Vector2D_of_sizes 0 0;
                exit_direction := Some DOWN |} :: more)
  ∧ (cell (sMaze g) 0 0 = Some true →
     cell (sMaze g) 0 (to_size (sColumnCount g - 1)) = Some false →
     ∃ more, entrances
             = {| exit_position :=
                    Vector2D_of_sizes (to_size (sColumnCount g - 1)) 0;
                  exit_direction := Some LEFT |} :: more).
Proof.
  intros Hrc Hcc. unfold findEntryPoints.
  destruct (indices_cons _ Hrc) as [rows ->].
  destruct (indices_cons _ Hcc) as [columns Hcolumns].
  cbn [scanRows Z.eqb orb]. rewrite Hcolumns. cbn [scanColumns].
  intros Hscan. split.
  - intros Hfirst. rewrite Hfirst in Hscan.
    cbn [mbind option_bind negb app] in Hscan.
    by apply scanRows_prefix in Hscan.
  - intros Hfirst Hlast. rewrite Hfirst in Hscan.
    cbn [mbind option_bind negb] in Hscan. rewrite Hlast in Hscan.
    cbn [mbind option_bind negb app] in Hscan.
    by apply scanRows_prefix in Hscan.
Qed.

Lemma findEntryPoints_first_row_corners_witness :
  (0 < sRowCount (gridOf ["X  "; " XX"; "XXX"]%string)
   ∧ 0 < sColumnCount (gridOf ["X  "; " XX"; "XXX"]%string)
   ∧ findEntryPoints (gridOf ["X  "; " XX"; "XXX"]%string)
     = Some [ {| exit_position := {| column := 2; row := 0 |};
                 exit_direction := Some LEFT |} ]
   ∧ cell (sMaze (gridOf ["X  "; " XX"; "XXX"]%string)) 0 0 = Some true
   ∧ cell (sMaze (gridOf ["X  "; " XX"; "XXX"]%string)) 0
       (to_size (sColumnCount (gridOf ["X  "; " XX"; "XXX"]%string) - 1))
     = Some false)
  ∧ ∃ more,
      [ {| exit_position := {| column := 2; row := 0 |};
           exit_direction := Some LEFT |} ]
      = {| exit_position :=
             Vector2D_of_sizes
               (to_size (sColumnCount (gridOf ["X  "; " XX"; "XXX"]%string) - 1))
               0;
           exit_direction := Some LEFT |} :: more.
Proof.
  assert (Hrc : 0 < sRowCount (gridOf ["X  "; " XX"; "XXX"]%string))
    by (vm_compute; reflexivity).
  assert (Hcc : 0 < sColumnCount (gridOf ["X  "; " XX"; "XXX"]%string))
    by (vm_compute; reflexivity).
  assert (Hscan : findEntryPoints (gridOf ["X  "; " XX"; "XXX"]%string)
            = Some [ {| exit_position := {| column := 2; row := 0 |};
                        exit_direction := Some LEFT |} ])
    by (vm_compute; reflexivity).
  assert (Hfirst : cell (sMaze (gridOf ["X  "; " XX"; "XXX"]%string)) 0 0
                   = Some true) by (vm_compute; reflexivity).
  assert (Hlast : cell (sMaze (gridOf ["X  "; " XX"; "XXX"]%string)) 0
       (to_size (sColumnCount (gridOf ["X  "; " XX"; "XXX"]%string) - 1))
     = Some false) by (vm_compute; reflexivity).
  split; [by repeat split|].
  exact (proj2 (findEntryPoints_first_row_corners _ _ Hrc Hcc Hscan)
           Hfirst Hlast).
Defined.

(** * More on the traversal *)

(** X9.  The cell tested by the look-ahead ([operator +], through the [int]
    constructor) is the cell the move leads to ([operator +=]), for every
    position whose coordinates are below 2^31 - 1. *)
Theorem lookahead_agrees_with_move p d :
  0 ≤ column p < 2 ^ 31 - 1 → 0 ≤ row p < 2 ^ 31 - 1 →
  vadd p (directionToVector d) = vadd_assign p (directionToVector d).
Proof.
  destruct p as [c r].
  unfold vadd, vadd_assign, Vector2D_of_sizes, mkVector2D.
  destruct d; simpl; machine; intros Hc Hr.
  all: f_equal; Z.div_mod_to_equations; lia.
Qed.

Lemma lookahead_agrees_with_move_witness :
  (0 ≤ column {| column := 0; row := 0 |} < 2 ^ 31 - 1
   ∧ 0 ≤ row {| column := 0; row := 0 |} < 2 ^ 31 - 1)
  ∧ vadd {| column := 0; row := 0 |} (directionToVector UP)
    = vadd_assign {| column := 0; row := 0 |} (directionToVector UP)
  ∧ vadd_assign {| column := 0; row := 0 |} (directionToVector UP)
    = {| column := 0; row := 2 ^ 64 - 1 |}.
Proof.
  split; [simpl; lia|]. split; [|reflexivity].
  apply (lookahead_agrees_with_move {| column := 0; row := 0 |} UP);
    simpl; lia.
Defined.

Section Reachable.

Variable g : Grid.
Variable exits : list ExitInformation.


End Reachable.





(** After a tick the loop goes on from, the stack is not empty. *)
Lemma tick_nonempty g exits s s' :
  tick g exits s = Running s' → visitedLocations s' ≠ [].
Proof.
  intros Htick.
  pose proof (tick_ticked g exits s) as Hstep. rewrite Htick in Hstep.
  inversion Hstep as
    [ | | n ahead Hmode Hscan Hahead Hcell Heq
      | n n' heading Hmode Hscan Hbr Heq
      | n n' Hmode Hbr Heq
      | cur next rest cur' heading Hmode Hstack Hre Heq
      | cur next rest cur' Hmode Hstack Hre Heq | ]; subst;
    try discriminate.
  by apply keepBacktracking_running in Heq as [-> Hne].
Qed.

(** X12.  Where the stuck report comes from.  The test behind the step-back
    loop (line 564) reports "Bot got stuck" on the first tick only, for a
    robot that is blocked on its entrance with an empty stack.  After the
    first tick the stack of a state the loop goes on from is never empty:
    a step back that would empty it pops the only node and then asks for
    the top of the empty stack (line 520), which is undefined, before
    line 564 is reached.  So every stuck report of a robot that has
    moved lies behind that call. *)
Theorem stuck_only_at_entrance g exits p heading n s :
  run g exits n (initial p heading) = Running s →
  (tick g exits s = Stuck → n = 0%nat ∧ s = initial p heading)
  ∧ (n ≠ 0%nat → visitedLocations s ≠ [])
  ∧ (mode s = Backtracking →
     ∀ node, visitedLocations s = [node] →
             tick g exits s = Crash TopOfEmptyStack).
Proof.
  intros Hrun.
  assert (Hmoved : n ≠ 0%nat → visitedLocations s ≠ []).
  { destruct n as [|m]; [done|]. intros _.
    destruct (run_last g exits m _ _ Hrun) as (s0 & _ & Htick).
    by apply tick_nonempty in Htick. }
  split; [|split; [exact Hmoved|]].
  - intros Htick.
    assert (Hempty : visitedLocations s = []).
    { pose proof (tick_ticked g exits s) as Hstep. rewrite Htick in Hstep.
      inversion Hstep as
        [ | | | | n0 n' Hmode Hbr Heq | | | Hmode Hstack ]; [|exact Hstack].
      unfold keepBacktracking in Heq. simpl in Heq.
      by destruct (visitedLocations s). }
    destruct n as [|m]; [|by destruct Hmoved].
    split; [reflexivity|]. injection Hrun as <-. reflexivity.
  - intros Hmode node Hstack. by apply stepBack_single_node with node.
Qed.

Lemma stuck_only_at_entrance_witness :
  ∃ s,
    (run (gridOf Samples.short_dead_end) (exitsOf Samples.short_dead_end) 2
         (initial {| column := 1; row := 0 |} DOWN) = Running s
     ∧ run (gridOf ["X X"; "XXX"; "X X"]%string)
           (exitsOf ["X X"; "XXX"; "X X"]%string) 0
           (initial {| column := 1; row := 0 |} DOWN)
       = Running (initial {| column := 1; row := 0 |} DOWN)
     ∧ tick (gridOf ["X X"; "XXX"; "X X"]%string)
            (exitsOf ["X X"; "XXX"; "X X"]%string)
            (initial {| column := 1; row := 0 |} DOWN) = Stuck
     ∧ mode s = Backtracking
     ∧ bot_position (bot s) = {| column := 1; row := 1 |}
     ∧ (node_position <$> visitedLocations s) = [ {| column := 1; row := 0 |} ]
     ∧ tick (gridOf Samples.short_dead_end) (exitsOf Samples.short_dead_end) s
       = Crash TopOfEmptyStack)
    ∧ ((tick (gridOf Samples.short_dead_end) (exitsOf Samples.short_dead_end) s
        = Stuck → 2%nat = 0%nat ∧ s = initial {| column := 1; row := 0 |} DOWN)
       ∧ (2%nat ≠ 0%nat → visitedLocations s ≠ [])
       ∧ (mode s = Backtracking →
          ∀ node, visitedLocations s = [node] →
                  tick (gridOf Samples.short_dead_end)
                       (exitsOf Samples.short_dead_end) s
                  = Crash TopOfEmptyStack))
    ∧ ((tick (gridOf ["X X"; "XXX"; "X X"]%string)
             (exitsOf ["X X"; "XXX"; "X X"]%string)
             (initial {| column := 1; row := 0 |} DOWN) = Stuck →
        0%nat = 0%nat
        ∧ initial {| column := 1; row := 0 |} DOWN
          = initial {| column := 1; row := 0 |} DOWN)
       ∧ (0%nat ≠ 0%nat →
          visitedLocations (initial {| column := 1; row := 0 |} DOWN) ≠ [])
       ∧ (mode (initial {| column := 1; row := 0 |} DOWN) = Backtracking →
          ∀ node,
            visitedLocations (initial {| column := 1; row := 0 |} DOWN)
            = [node] →
            tick (gridOf ["X X"; "XXX"; "X X"]%string)
                 (exitsOf ["X X"; "XXX"; "X X"]%string)
                 (initial {| column := 1; row := 0 |} DOWN)
            = Crash TopOfEmptyStack)).
Proof.
  eexists.
  match goal with
  | |- (?r = Running ?s ∧ ?r0 = _ ∧ _) ∧ _ =>
      assert (Hrun : r = Running s) by (vm_compute; reflexivity);
      assert (Hrun0 : r0 = Running (initial {| column := 1; row := 0 |} DOWN))
        by reflexivity
  end.
  split.
  { split; [exact Hrun|]. split; [exact Hrun0|].
    split; [vm_compute; reflexivity|]. split; [reflexivity|].
    split; [reflexivity|]. split; [reflexivity|]. vm_compute. reflexivity. }
  split.
  - exact (stuck_only_at_entrance _ _ _ _ _ _ Hrun).
  - exact (stuck_only_at_entrance _ _ _ _ _ _ Hrun0).
Defined.

Section Endpoints.

Variable g : Grid.
Variable exits : list ExitInformation.
Variable p : Vector2D.

(** The bottom of the trail is the entrance. *)
Lemma tick_rooted s s' :
  last (trail s) = Some p → tick g exits s = Running s' →
  last (trail s') = Some p.
Proof.
  intros Hlast Htick.
  pose proof (tick_ticked g exits s) as Hstep. rewrite Htick in Hstep.
  unfold trail in *.
  inversion Hstep as
    [ | | n ahead Hmode Hscan Hahead Hcell Heq
      | n n' heading Hmode Hscan Hbr Heq
      | n n' Hmode Hbr Heq
      | cur next rest cur' heading Hmode Hstack Hre Heq
      | cur next rest cur' Hmode Hstack Hre Heq | ]; subst.
  - destruct Hscan as (Hpos & _). unfold move. cbn [bot visitedLocations].
    rewrite fmap_cons, markWent_position, Hpos. by rewrite last_cons_cons.
  - destruct (branch_result _ _ _ _ Hbr) as [_ Hpos'].
    destruct Hscan as (Hpos & _). unfold move. cbn [bot visitedLocations].
    rewrite fmap_cons, markWent_position, Hpos', Hpos.
    by rewrite last_cons_cons.
  - apply keepBacktracking_running in Heq as [-> _]. exact Hlast.
  - rewrite Hstack in Hlast. cbn [bot visitedLocations bot_position].
    rewrite !fmap_cons in *. by rewrite !last_cons_cons in *.
  - rewrite Hstack in Hlast. cbn [bot visitedLocations bot_position].
    rewrite !fmap_cons in *. by rewrite !last_cons_cons in *.
Qed.

(** A tick that goes on from an Advancing state has passed the goal
    check. *)
Lemma tick_past_goal s s' :
  mode s = Advancing → tick g exits s = Running s' →
  isExit exits (bot_position (bot s)) = false.
Proof.
  intros Hmode. unfold tick, isExit. rewrite Hmode.
  by destruct (existsb _ exits).
Qed.

(** No node of the stack records an exit. *)
Lemma tick_off_exits s s' :
  Forall (λ q, isExit exits q = false) (node_position <$> visitedLocations s) →
  tick g exits s = Running s' →
  Forall (λ q, isExit exits q = false) (node_position <$> visitedLocations s').
Proof.
  intros Hstack Htick.
  pose proof (tick_ticked g exits s) as Hstep. rewrite Htick in Hstep.
  inversion Hstep as
    [ | | n ahead Hmode Hscan Hahead Hcell Heq
      | n n' heading Hmode Hscan Hbr Heq
      | n n' Hmode Hbr Heq
      | cur next rest cur' heading Hmode Hstack' Hre Heq
      | cur next rest cur' Hmode Hstack' Hre Heq | ]; subst.
  - destruct Hscan as (Hpos & _). unfold move. cbn [visitedLocations].
    rewrite fmap_cons, markWent_position, Hpos.
    constructor; [|exact Hstack]. by apply (tick_past_goal s _ Hmode Htick).
  - destruct (branch_result _ _ _ _ Hbr) as [_ Hpos'].
    destruct Hscan as (Hpos & _). unfold move. cbn [visitedLocations].
    rewrite fmap_cons, markWent_position, Hpos', Hpos.
    constructor; [|exact Hstack]. by apply (tick_past_goal s _ Hmode Htick).
  - apply keepBacktracking_running in Heq as [-> _]. exact Hstack.
  - rewrite Hstack' in Hstack. cbn [visitedLocations].
    rewrite !fmap_cons in *. rewrite (retry_position _ _ _ _ Hre).
    exact Hstack.
  - rewrite Hstack' in Hstack. cbn [visitedLocations].
    rewrite !fmap_cons in *. by apply Forall_cons in Hstack as [_ Hstack].
Qed.

End Endpoints.

(** X13.  The emitted path leads from the exit back to the entrance: when the
    run ends with Solved, the robot stands on a registered exit [q], the
    path is linked to [q] at its head, and the last cell of the path is
    the entrance.  No cell of the path is a registered exit, so the exit
    cell [q] the robot stands on is not part of the path (its first cell
    is next to [q]), and the path is empty exactly when the entrance is
    itself a registered exit. *)
Theorem solved_path_endpoints g exits p heading n path :
  smallGrid g → openCell g p →
  run g exits n (initial p heading) = Solved path →
  ∃ q, isExit exits q = true
       ∧ linked (q :: path)
       ∧ last (q :: path) = Some p
       ∧ Forall (λ c, isExit exits c = false) path
       ∧ (q ∉ path)
       ∧ (path = [] ↔ isExit exits p = true).
Proof.
  intros Hg Hp Hrun.
  pose proof (run_invariant g exits
                (λ s, (sound g s ∧ last (trail s) = Some p)
                      ∧ tracked (initial p heading) s
                      ∧ Forall (λ q, isExit exits q = false)
                               (node_position <$> visitedLocations s))
                (λ s s' Hs Htick,
                   conj (conj (tick_sound g exits s s' Hg
                                 (proj1 (proj1 Hs)) Htick)
                              (tick_rooted g exits p s s'
                                 (proj2 (proj1 Hs)) Htick))
                        (conj (tick_tracked g exits (initial p heading)
                                 s s' Htick)
                              (tick_off_exits g exits s s'
                                 (proj2 (proj2 Hs)) Htick)))
                n (initial p heading)) as Hinv.
  rewrite Hrun in Hinv.
  destruct Hinv as (s & [[[_ Hlinked] Hlast] [[Hempty _] Hoff]] & Htick).
  { split; [split; [|reflexivity]|].
    - split; [|exact I]. unfold trail, initial. simpl.
      constructor; [exact Hp|constructor].
    - split; [|constructor]. split; [reflexivity|]. intros _. exact I. }
  pose proof (tick_solved_path g exits s path Htick) as ->.
  assert (Hq : isExit exits (bot_position (bot s)) = true).
  { pose proof (tick_ticked g exits s) as Hstep. rewrite Htick in Hstep.
    inversion Hstep as [ | Hmode Hexit | | | n0 n' Hmode Hbr Heq | | | ];
      [exact Hexit|].
    unfold keepBacktracking in Heq. simpl in Heq.
    by destruct (visitedLocations s). }
  exists (bot_position (bot s)).
  split; [exact Hq|]. split; [exact Hlinked|]. split; [exact Hlast|].
  split; [exact Hoff|]. split.
  - intros Hin. rewrite Forall_forall in Hoff. specialize (Hoff _ Hin).
    congruence.
  - split.
    + intros Hnil. apply fmap_nil_inv in Hnil.
      rewrite (Hempty Hnil) in Hq. exact Hq.
    + intros Hexit.
      destruct (node_position <$> visitedLocations s) as [|c path] eqn:Hpath;
        [reflexivity|].
      unfold trail in Hlast. rewrite Hpath in Hlast.
      rewrite last_cons_cons in Hlast.
      apply last_Some_elem_of in Hlast.
      rewrite Forall_forall in Hoff. specialize (Hoff _ Hlast). congruence.
Qed.

Lemma solved_path_endpoints_witness :
  (smallGrid (gridOf Samples.dead_end_then_exit)
   ∧ openCell (gridOf Samples.dead_end_then_exit) {| column := 1; row := 0 |}
   ∧ run (gridOf Samples.dead_end_then_exit)
         (exitsOf Samples.dead_end_then_exit) 8
         (initial {| column := 1; row := 0 |} DOWN)
     = Solved [ {| column := 2; row := 2 |}; {| column := 1; row := 2 |};
                {| column := 1; row := 2 |}; {| column := 1; row := 1 |};
                {| column := 1; row := 0 |} ])
  ∧ ∃ q, isExit (exitsOf Samples.dead_end_then_exit) q = true
         ∧ linked (q :: [ {| column := 2; row := 2 |};
                          {| column := 1; row := 2 |};
                          {| column := 1; row := 2 |};
                          {| column := 1; row := 1 |};
                          {| column := 1; row := 0 |} ])
         ∧ last (q :: [ {| column := 2; row := 2 |};
                        {| column := 1; row := 2 |};
                        {| column := 1; row := 2 |};
                        {| column := 1; row := 1 |};
                        {| column := 1; row := 0 |} ])
           = Some {| column := 1; row := 0 |}
         ∧ Forall (λ c, isExit (exitsOf Samples.dead_end_then_exit) c = false)
                  [ {| column := 2; row := 2 |}; {| column := 1; row := 2 |};
                    {| column := 1; row := 2 |}; {| column := 1; row := 1 |};
                    {| column := 1; row := 0 |} ]
         ∧ (q ∉ [ {| column := 2; row := 2 |}; {| column := 1; row := 2 |};
                  {| column := 1; row := 2 |}; {| column := 1; row := 1 |};
                  {| column := 1; row := 0 |} ])
         ∧ ([ {| column := 2; row := 2 |}; {| column := 1; row := 2 |};
              {| column := 1; row := 2 |}; {| column := 1; row := 1 |};
              {| column := 1; row := 0 |} ] = []
            ↔ isExit (exitsOf Samples.dead_end_then_exit)
                {| column := 1; row := 0 |} = true).
Proof.
  assert (Hg : smallGrid (gridOf Samples.dead_end_then_exit)).
  { split; [vm_compute; reflexivity|].
    unfold gridOf. simpl. repeat constructor. }
  assert (Hp : openCell (gridOf Samples.dead_end_then_exit)
                 {| column := 1; row := 0 |}).
  { split; [vm_compute; discriminate|]. split; [vm_compute; discriminate|].
    vm_compute. reflexivity. }
  assert (Hrun : run (gridOf Samples.dead_end_then_exit)
         (exitsOf Samples.dead_end_then_exit) 8
         (initial {| column := 1; row := 0 |} DOWN)
     = Solved [ {| column := 2; row := 2 |}; {| column := 1; row := 2 |};
                {| column := 1; row := 2 |}; {| column := 1; row := 1 |};
                {| column := 1; row := 0 |} ]) by (vm_compute; reflexivity).
  split; [split; [exact Hg|split; [exact Hp|exact Hrun]]|].
  exact (solved_path_endpoints _ _ _ DOWN 8%nat _ Hg Hp Hrun).
Defined.

(** * The screen *)

Section Indices2.

Lemma indices_elem n x : 0 ≤ x < n → x ∈ indices n.
Proof.
  intros Hx. unfold indices. apply list_elem_of_fmap.
  exists (Z.to_nat x). split; [lia|]. apply elem_of_seq. lia.
Qed.

End Indices2.

Section VideoLoad.

Variables rowCount columnCount : Z.
Hypothesis Hcc : 0 < columnCount.

(** The loop over [data] with both buffers: its grid and its exits are
    those of [load_loop], and the video shows 'O' on the cells of the 'O'
    characters and is otherwise untouched. *)
Lemma loadBoth_loop_spec data : ∀ iteration m v results,
  shape m rowCount columnCount → shape v rowCount columnCount →
  0 ≤ iteration →
  iteration + Z.of_nat (length data) ≤ rowCount * columnCount →
  ∃ m' v' results',
    loadBoth_loop columnCount data iteration m v results
    = Some (m', v', results')
    ∧ load_loop columnCount data iteration m results = Some (m', results')
    ∧ shape v' rowCount columnCount
    ∧ (∀ j ch, data !! j = Some ch →
         read2 v' ((iteration + Z.of_nat j) / columnCount)
                  ((iteration + Z.of_nat j) mod columnCount)
         = if Ascii.eqb ch "O" then Some "O"%char
           else read2 v ((iteration + Z.of_nat j) / columnCount)
                        ((iteration + Z.of_nat j) mod columnCount))
    ∧ (∀ i, 0 ≤ i →
         i < iteration ∨ iteration + Z.of_nat (length data) ≤ i →
         read2 v' (i / columnCount) (i mod columnCount)
         = read2 v (i / columnCount) (i mod columnCount)).
Proof.
  induction data as [|ch data IH]; intros iteration m v results Hm Hv Hi Hlen.
  - exists m, v, results. split; [reflexivity|]. split; [reflexivity|].
    split; [exact Hv|]. split; [|reflexivity].
    intros j ch Hj. by rewrite lookup_nil in Hj.
  - cbn [length] in Hlen. cbn [loadBoth_loop load_loop].
    assert ((columnCount =? 0) = false) as -> by (apply Z.eqb_neq; lia).
    destruct (index_inside rowCount columnCount Hcc iteration)
      as [Hrow Hcol]; [lia|].
    destruct (Ascii.eqb ch "O") eqn:HO.
    + destruct (store_inside m (iteration / columnCount)
                  (iteration mod columnCount) false rowCount columnCount)
        as [m1 Hm1]; [exact Hm|lia|lia|].
      destruct (write2_inside v (iteration / columnCount)
                  (iteration mod columnCount) "O"%char rowCount columnCount)
        as [v1 Hv1]; [exact Hv|lia|lia|].
      rewrite Hm1, Hv1. cbn [mbind option_bind].
      destruct (IH (iteration + 1) m1 v1
                  (results ++ [{| exit_position :=
                                    Vector2D_of_sizes
                                      (iteration mod columnCount)
                                      (iteration / columnCount);
                                  exit_direction := None |}]))
        as (m' & v' & results' & Hboth & Hload & Hshape & Hshown & Hframe);
        [eapply store_shape; eassumption
        |eapply write2_shape; eassumption|lia|lia|].
      exists m', v', results'. split; [exact Hboth|]. split; [exact Hload|].
      split; [exact Hshape|]. split.
      * intros [|j] ch' Hj.
        -- injection Hj as <-. rewrite HO.
           change (Z.of_nat 0) with 0. rewrite Z.add_0_r.
           rewrite Hframe by lia. eapply read2_write2_same, Hv1.
        -- specialize (Hshown j ch' Hj).
           replace (iteration + Z.of_nat (S j))
             with (iteration + 1 + Z.of_nat j) by lia.
           rewrite Hshown. destruct (Ascii.eqb ch' "O"); [reflexivity|].
           eapply read2_write2_other; [| | | | |exact Hv1]; try lia.
           ++ apply Z.div_pos; lia.
           ++ apply Z.mod_pos_bound. lia.
           ++ apply index_apart; lia.
      * intros i Hi0 Hout. cbn [length] in Hout. rewrite Hframe by lia.
        eapply read2_write2_other; [| | | | |exact Hv1]; try lia.
        -- apply Z.div_pos; lia.
        -- apply Z.mod_pos_bound. lia.
        -- apply index_apart; lia.
    + destruct (store_inside m (iteration / columnCount)
                  (iteration mod columnCount) (Ascii.eqb ch "X")
                  rowCount columnCount)
        as [m1 Hm1]; [exact Hm|lia|lia|].
      rewrite Hm1. cbn [mbind option_bind].
      destruct (IH (iteration + 1) m1 v results)
        as (m' & v' & results' & Hboth & Hload & Hshape & Hshown & Hframe);
        [eapply store_shape; eassumption|exact Hv|lia|lia|].
      exists m', v', results'. split; [exact Hboth|]. split; [exact Hload|].
      split; [exact Hshape|]. split.
      * intros [|j] ch' Hj.
        -- injection Hj as <-. rewrite HO.
           change (Z.of_nat 0) with 0. rewrite Z.add_0_r.
           apply Hframe; lia.
        -- specialize (Hshown j ch' Hj).
           by replace (iteration + Z.of_nat (S j))
             with (iteration + 1 + Z.of_nat j) by lia.
      * intros i Hi0 Hout. cbn [length] in Hout. apply Hframe; lia.
Qed.

End VideoLoad.

Section Populate.

Variables rowCount columnCount : Z.
Variable m : list (list bool).
Hypothesis Hm : shape m rowCount columnCount.

(** What the second pass leaves on a cell that showed [old] over a flag
    [w]. *)
Lemma populateColumns_spec r columns : ∀ v,
  0 ≤ r < rowCount → shape v rowCount columnCount →
  NoDup columns → Forall (λ c, 0 ≤ c < columnCount) columns →
  ∃ v', populateColumns m v r columns = Some v'
        ∧ shape v' rowCount columnCount
        ∧ (∀ c, c ∈ columns →
             ∃ old w, read2 v r c = Some old ∧ cell m r c = Some w
                      ∧ read2 v' r c
                        = Some (if Ascii.eqb old "O" then "O"
                                else if w : bool then "X" else " ")%char)
        ∧ (∀ r' c', 0 ≤ r' → 0 ≤ c' → r' ≠ r ∨ c' ∉ columns →
             read2 v' r' c' = read2 v r' c').
Proof.
  induction columns as [|c rest IH]; intros v Hr Hv Hnd Hcols.
  - exists v. split; [reflexivity|]. split; [exact Hv|].
    split; [|reflexivity]. intros c Hc. by apply elem_of_nil in Hc.
  - apply NoDup_cons in Hnd as [Hfresh Hnd].
    apply Forall_cons in Hcols as [Hc Hcols]. cbn [populateColumns].
    destruct (read2_inside v r c rowCount columnCount Hv Hr Hc) as [old Hold].
    destruct (read2_inside m r c rowCount columnCount Hm Hr Hc) as [w Hw].
    rewrite Hold. cbn [mbind option_bind].
    destruct (Ascii.eqb old "O") eqn:HO.
    + destruct (IH v Hr Hv Hnd Hcols) as (v' & Hrun & Hshape & Hdone & Hframe).
      exists v'. split; [exact Hrun|]. split; [exact Hshape|]. split.
      * intros c0 [->|Hin]%elem_of_cons; [|by apply Hdone].
        exists old, w. split; [exact Hold|]. split; [exact Hw|].
        rewrite HO, Hframe by (lia || by right).
        apply Ascii.eqb_eq in HO. by subst old.
      * intros r' c' Hr' Hc' Hout. apply Hframe; try lia.
        destruct Hout as [Hne|Hnot]; [by left|right].
        intros Hin. apply Hnot. by right.
    + change (cell m r c) with (read2 m r c). rewrite Hw.
      cbn [mbind option_bind].
      destruct (write2_inside v r c (if w then "X" else " ")%char
                  rowCount columnCount Hv Hr Hc) as [v1 Hv1].
      rewrite Hv1. cbn [mbind option_bind].
      destruct (IH v1 Hr (write2_shape _ _ _ _ _ _ _ Hv1 Hv) Hnd Hcols)
        as (v' & Hrun & Hshape & Hdone & Hframe).
      exists v'. split; [exact Hrun|]. split; [exact Hshape|]. split.
      * intros c0 [->|Hin]%elem_of_cons.
        -- exists old, w. split; [exact Hold|]. split; [exact Hw|].
           rewrite HO, Hframe by (lia || by right).
           eapply read2_write2_same, Hv1.
        -- destruct (Hdone c0 Hin) as (old0 & w0 & Ho & Hw0 & Hfin).
           exists old0, w0. split; [|by split].
           rewrite <- Ho. symmetry.
           eapply read2_write2_other; [| | | | |exact Hv1]; try lia.
           ++ rewrite Forall_forall in Hcols. apply (Hcols c0 Hin).
           ++ right. intros ->. by apply Hfresh.
      * intros r' c' Hr' Hc' Hout. rewrite Hframe; try lia.
        -- eapply read2_write2_other; [| | | | |exact Hv1]; try lia.
           destruct Hout as [Hne|Hnot]; [by left|right].
           intros ->. apply Hnot. by left.
        -- destruct Hout as [Hne|Hnot]; [by left|right].
           intros Hin. apply Hnot. by right.
Qed.

Lemma populateRows_spec rows : ∀ v,
  shape v rowCount columnCount →
  NoDup rows → Forall (λ r, 0 ≤ r < rowCount) rows →
  ∃ v', populateRows m v rows columnCount = Some v'
        ∧ shape v' rowCount columnCount
        ∧ (∀ r c, r ∈ rows → 0 ≤ c < columnCount →
             ∃ old w, read2 v r c = Some old ∧ cell m r c = Some w
                      ∧ read2 v' r c
                        = Some (if Ascii.eqb old "O" then "O"
                                else if w : bool then "X" else " ")%char)
        ∧ (∀ r' c', 0 ≤ r' → 0 ≤ c' → r' ∉ rows →
             read2 v' r' c' = read2 v r' c').
Proof.
  induction rows as [|r rest IH]; intros v Hv Hnd Hrows.
  - exists v. split; [reflexivity|]. split; [exact Hv|].
    split; [|reflexivity]. intros r c Hr. by apply elem_of_nil in Hr.
  - apply NoDup_cons in Hnd as [Hfresh Hnd].
    apply Forall_cons in Hrows as [Hr Hrows]. cbn [populateRows].
    destruct (populateColumns_spec r (indices columnCount) v Hr Hv)
      as (v1 & -> & Hv1 & Hdone1 & Hframe1).
    { apply indices_NoDup. }
    { apply Forall_forall. intros c. apply indices_range. }
    cbn [mbind option_bind].
    destruct (IH v1 Hv1 Hnd Hrows) as (v' & Hrun & Hshape & Hdone & Hframe).
    exists v'. split; [exact Hrun|]. split; [exact Hshape|]. split.
    + intros r0 c [->|Hin]%elem_of_cons Hc.
      * destruct (Hdone1 c (indices_elem _ _ Hc)) as (old & w & Ho & Hw & Hfin).
        exists old, w. split; [exact Ho|]. split; [exact Hw|].
        rewrite Hframe by (lia || exact Hfresh). exact Hfin.
      * destruct (Hdone r0 c Hin Hc) as (old & w & Ho & Hw & Hfin).
        exists old, w. split; [|by split].
        rewrite <- Ho. symmetry. apply Hframe1; try lia.
        -- rewrite Forall_forall in Hrows. apply (Hrows r0 Hin).
        -- left. intros ->. by apply Hfresh.
    + intros r' c' Hr' Hc' Hout. rewrite Hframe; try lia.
      * apply Hframe1; try lia. left. intros ->. apply Hout. by left.
      * intros Hin. apply Hout. by right.
Qed.

End Populate.

Section Print.

Variable v : list (list ascii).

Lemma printColumns_suffix r chars :
  0 ≤ r → v !! Z.to_nat r = Some chars →
  ∀ rest pre, chars = pre ++ rest →
  printColumns v r (Z.of_nat <$> seq (length pre) (length rest)) = Some rest.
Proof.
  intros Hr Hrow. induction rest as [|ch rest IH]; intros pre Hchars.
  - reflexivity.
  - cbn [length seq fmap list_fmap printColumns]. unfold read2.
    rewrite Hrow. cbn [mbind option_bind]. rewrite Nat2Z.id.
    rewrite Hchars, list_lookup_middle by reflexivity.
    cbn [mbind option_bind].
    specialize (IH (pre ++ [ch])). rewrite length_app in IH.
    cbn [length] in IH. rewrite Nat.add_1_r in IH.
    fold (fmap (M := list) Z.of_nat). rewrite IH; [reflexivity|].
    by rewrite <- app_assoc.
Qed.

Lemma printRows_suffix columnCount :
  Forall (λ chars : list ascii, Z.of_nat (length chars) = columnCount) v →
  ∀ rest pre, v = pre ++ rest →
  printRows v (Z.of_nat <$> seq (length pre) (length rest)) columnCount
  = Some rest.
Proof.
  intros Hcols. induction rest as [|chars rest IH]; intros pre Hv.
  - reflexivity.
  - cbn [length seq fmap list_fmap printRows].
    assert (Hrow : v !! Z.to_nat (Z.of_nat (length pre)) = Some chars).
    { rewrite Nat2Z.id, Hv. by apply list_lookup_middle. }
    assert (Hlen : Z.of_nat (length chars) = columnCount).
    { rewrite Forall_forall in Hcols. apply Hcols.
      eapply list_elem_of_lookup_2, Hrow. }
    pose proof (printColumns_suffix _ chars (Nat2Z.is_nonneg _) Hrow
                  chars [] eq_refl) as Hline.
    cbn [length] in Hline. unfold indices. rewrite <- Hlen, Nat2Z.id, Hline.
    cbn [mbind option_bind].
    specialize (IH (pre ++ [chars])). rewrite length_app in IH.
    cbn [length] in IH. rewrite Nat.add_1_r in IH.
    fold (fmap (M := list) Z.of_nat). rewrite Hlen, IH; [reflexivity|].
    by rewrite <- app_assoc.
Qed.

End Print.

Lemma print_of_shape v rowCount columnCount :
  shape v rowCount columnCount → print v rowCount columnCount = Some v.
Proof.
  intros [Hrows Hcols]. unfold print, indices.
  rewrite <- Hrows, Nat2Z.id.
  by apply (printRows_suffix v columnCount Hcols v []).
Qed.

(** X14.  [print] writes the video buffer as it stands, row by row, and reads
    nothing outside it: on a buffer of [rowCount] rows of [columnCount]
    characters its output is the buffer. *)
Theorem print_shows_video v rowCount columnCount :
  shape v rowCount columnCount → print v rowCount columnCount = Some v.
Proof. apply print_of_shape. Qed.

Lemma print_shows_video_witness :
  shape [ ["X"; " "; "B"]%char; ["X"; "*"; "O"]%char ] 2 3
  ∧ print [ ["X"; " "; "B"]%char; ["X"; "*"; "O"]%char ] 2 3
    = Some [ ["X"; " "; "B"]%char; ["X"; "*"; "O"]%char ].
Proof.
  assert (H : shape [ ["X"; " "; "B"]%char; ["X"; "*"; "O"]%char ] 2 3).
  { split; [reflexivity|]. repeat constructor. }
  split; [exact H|]. exact (print_shows_video _ 2 3 H).
Defined.

(** X15.  The screen after [load]: over buffers of [rowCount] rows of
    [columnCount] elements, the video free of 'O', and for a file buffer
    of [rowCount * columnCount] characters, [load] with both buffers
    succeeds, builds the grid and the exits of [load_with], and [print]
    then shows every character of the file in its place: an 'O' as 'O',
    an 'X' as 'X', anything else as a blank. *)
Theorem print_after_load alloc allocVideo rowCount columnCount
    (data : list ascii) :
  0 < columnCount →
  shape (alloc rowCount columnCount) rowCount columnCount →
  shape (allocVideo rowCount columnCount) rowCount columnCount →
  (∀ r c, read2 (allocVideo rowCount columnCount) r c ≠ Some "O"%char) →
  Z.of_nat (length data) = rowCount * columnCount →
  ∃ g v userExits,
    loadBoth alloc allocVideo rowCount columnCount data
    = Some (g, v, userExits)
    ∧ load_with alloc rowCount columnCount data = Some (g, userExits)
    ∧ print v rowCount columnCount = Some v
    ∧ shape v rowCount columnCount
    ∧ (∀ j ch, data !! j = Some ch →
         read2 v (Z.of_nat j / columnCount) (Z.of_nat j mod columnCount)
         = Some (display ch)).
Proof.
  intros Hcc Hm Hv Hclean Hlen. unfold loadBoth, load_with.
  destruct (loadBoth_loop_spec rowCount columnCount Hcc data 0
              (alloc rowCount columnCount) (allocVideo rowCount columnCount)
              [])
    as (m1 & v1 & results & -> & Hload & Hv1 & Hshown & _);
    [exact Hm|exact Hv|lia|lia|].
  rewrite Hload. cbn [mbind option_bind].
  destruct (load_loop_shape rowCount columnCount Hcc data 0
              (alloc rowCount columnCount) [])
    as (m1' & results' & Hload' & Hm1 & Hcells & _); [exact Hm|lia|lia|].
  rewrite Hload in Hload'. injection Hload' as <- <-.
  assert (Hrc : 0 ≤ rowCount) by nia.
  destruct (populateRows_spec rowCount columnCount m1 Hm1
              (indices rowCount) v1 Hv1)
    as (v2 & -> & Hv2 & Hdone & _).
  { apply indices_NoDup. }
  { apply Forall_forall. intros r. apply indices_range. }
  cbn [mbind option_bind]. eexists _, _, _. split; [reflexivity|].
  split; [reflexivity|]. split; [by apply print_of_shape|].
  split; [exact Hv2|]. intros j ch Hj.
  destruct (index_inside rowCount columnCount Hcc (Z.of_nat j))
    as [Hrow Hcol].
  { apply lookup_lt_Some in Hj. lia. }
  destruct (Hdone (Z.of_nat j / columnCount) (Z.of_nat j mod columnCount))
    as (old & w & Hold & Hw & ->); [by apply indices_elem|exact Hcol|].
  specialize (Hshown j ch Hj). specialize (Hcells j ch Hj).
  rewrite Z.add_0_l in Hshown, Hcells.
  rewrite Hcells in Hw. injection Hw as <-.
  rewrite Hold in Hshown. unfold display.
  destruct (Ascii.eqb ch "O") eqn:HO.
  - injection Hshown as ->. reflexivity.
  - destruct (Ascii.eqb old "O") eqn:Hstray; [|reflexivity].
    apply Ascii.eqb_eq in Hstray. subst old. symmetry in Hshown.
    by apply Hclean in Hshown.
Qed.

Lemma print_after_load_witness :
  (0 < 3
   ∧ shape (rectangular 2 3) 2 3
   ∧ shape (rectangularVideo 2 3) 2 3
   ∧ (∀ r c, read2 (rectangularVideo 2 3) r c ≠ Some "O"%char)
   ∧ Z.of_nat (length (String.list_ascii_of_string "XO X.X")) = 2 * 3)
  ∧ ∃ g v userExits,
      loadBoth rectangular rectangularVideo 2 3
        (String.list_ascii_of_string "XO X.X") = Some (g, v, userExits)
      ∧ load_with rectangular 2 3 (String.list_ascii_of_string "XO X.X")
        = Some (g, userExits)
      ∧ print v 2 3 = Some v
      ∧ shape v 2 3
      ∧ (∀ j ch, String.list_ascii_of_string "XO X.X" !! j = Some ch →
           read2 v (Z.of_nat j / 3) (Z.of_nat j mod 3) = Some (display ch)).
Proof.
  assert (Hm : shape (rectangular 2 3) 2 3).
  { split; [reflexivity|]. repeat constructor. }
  assert (Hv : shape (rectangularVideo 2 3) 2 3).
  { split; [reflexivity|]. repeat constructor. }
  assert (Hclean : ∀ r c, read2 (rectangularVideo 2 3) r c ≠ Some "O"%char).
  { intros r c. unfold read2, rectangularVideo. simpl.
    destruct (Z.to_nat r) as [|[|?]]; simpl; [| |discriminate];
      (destruct (Z.to_nat c) as [|[|[|?]]]; simpl; discriminate). }
  split; [split; [lia|split; [exact Hm|split; [exact Hv|split;
            [exact Hclean|reflexivity]]]]|].
  apply (print_after_load rectangular rectangularVideo 2 3
           (String.list_ascii_of_string "XO X.X"));
    [lia|exact Hm|exact Hv|exact Hclean|reflexivity].
Defined.

(** * From the file to the grid *)

Section FileToGrid.

Lemma shape_rectangular rowCount columnCount :
  0 ≤ rowCount → 0 ≤ columnCount →
  shape (rectangular rowCount columnCount) rowCount columnCount.
Proof.
  intros Hr Hc. unfold rectangular. split; [rewrite length_replicate; lia|].
  apply Forall_replicate. rewrite length_replicate. lia.
Qed.

Lemma shape_wellFormed m rowCount columnCount :
  shape m rowCount columnCount →
  rowCount < 2 ^ 31 → columnCount < 2 ^ 31 →
  wellFormed {| sMaze := m; sRowCount := rowCount;
                sColumnCount := columnCount |}.
Proof.
  intros [Hrows Hcols] Hr Hc. unfold wellFormed. simpl.
  split; [by symmetry|]. split; [|by split].
  eapply Forall_impl; [exact Hcols|]. simpl. intros flags Hf. by symmetry.
Qed.

Lemma concat_lookup_uniform {A} (ls : list (list A)) (w : nat) :
  Forall (λ l, length l = w) ls →
  ∀ r c l, ls !! r = Some l → (c < w)%nat →
  concat ls !! (r * w + c)%nat = l !! c.
Proof.
  induction 1 as [|l0 ls Hl0 Hls IH]; intros r c l Hr Hc.
  - by rewrite lookup_nil in Hr.
  - cbn [concat]. destruct r as [|r].
    + injection Hr as ->. simpl. apply lookup_app_l. lia.
    + replace (S r * w + c)%nat with (length l0 + (r * w + c))%nat by lia.
      rewrite lookup_app_r by lia.
      replace (length l0 + (r * w + c) - length l0)%nat
        with (r * w + c)%nat by lia.
      by apply IH.
Qed.

(** The grid of a file whose non-empty lines have one length, read over
    rectangular storage. *)
Lemma loadFile_grid lines :
  uniformLines lines = true →
  0 < lineWidth lines < 2 ^ 31 →
  Z.of_nat (length (nonEmptyLines lines)) < 2 ^ 31 →
  ∃ g userExits,
    loadFile rectangular lines = MazeData g userExits
    ∧ wellFormed g
    ∧ sRowCount g = Z.of_nat (length (nonEmptyLines lines))
    ∧ sColumnCount g = lineWidth lines
    ∧ (∀ r c l ch,
         nonEmptyLines lines !! r = Some l →
         String.list_ascii_of_string l !! c = Some ch →
         cell (sMaze g) (Z.of_nat r) (Z.of_nat c) = Some (Ascii.eqb ch "X")).
Proof.
  intros Huniform Hwidth Hrows. unfold loadFile.
  rewrite readLines_closed_form, Huniform.
  assert (Hcount : to_size (Z.of_nat (length (nonEmptyLines lines)))
                   = Z.of_nat (length (nonEmptyLines lines))).
  { revert Hrows. machine. intros. apply Z.mod_small. lia. }
  rewrite Hcount.
  assert (Hall : Forall (λ l, Z.of_nat (String.length l) = lineWidth lines)
                   (nonEmptyLines lines)).
  { apply Forall_forall. intros l Hl. apply Z.eqb_eq.
    unfold uniformLines in Huniform. rewrite forallb_forall in Huniform.
    apply Huniform. by apply list_elem_of_In. }
  destruct (load_with_shape rectangular
              (Z.of_nat (length (nonEmptyLines lines))) (lineWidth lines)
              (bufferOf lines))
    as (g & userExits & -> & Hrc & Hcc & Hshape & Hcells & _); [lia| |..].
  { apply shape_rectangular; lia. }
  { unfold bufferOf. by apply length_concat_uniform. }
  exists g, userExits. split; [reflexivity|]. split.
  { destruct g as [m rc cc]. simpl in *. subst rc cc.
    apply shape_wellFormed; [exact Hshape|lia|lia]. }
  split; [exact Hrc|]. split; [exact Hcc|].
  intros r c l ch Hl Hch.
  assert (Hw : length (String.list_ascii_of_string l)
               = Z.to_nat (lineWidth lines)).
  { rewrite length_list_ascii_of_string. rewrite Forall_forall in Hall.
    specialize (Hall l (list_elem_of_lookup_2 _ _ _ Hl)). lia. }
  assert (Hc : (c < Z.to_nat (lineWidth lines))%nat).
  { apply lookup_lt_Some in Hch. lia. }
  specialize (Hcells (r * Z.to_nat (lineWidth lines) + c)%nat ch).
  replace (Z.of_nat (r * Z.to_nat (lineWidth lines) + c) / lineWidth lines)
    with (Z.of_nat r) in Hcells.
  2:{ apply Z.div_unique with (Z.of_nat c); [lia|nia]. }
  replace (Z.of_nat (r * Z.to_nat (lineWidth lines) + c) mod lineWidth lines)
    with (Z.of_nat c) in Hcells.
  2:{ apply Z.mod_unique with (Z.of_nat r); [lia|nia]. }
  apply Hcells. unfold bufferOf.
  rewrite (concat_lookup_uniform _ (Z.to_nat (lineWidth lines)))
    with (l := String.list_ascii_of_string l); [exact Hch| | |exact Hc].
  - apply Forall_fmap, Forall_forall. intros l' Hl'. simpl.
    rewrite length_list_ascii_of_string. rewrite Forall_forall in Hall.
    specialize (Hall l' Hl'). lia.
  - by rewrite list_lookup_fmap, Hl.
Qed.

(** Lines that fit the buffer are narrower than the buffer. *)
Lemma fitsBuffer_width lines :
  forallb fitsBuffer lines = true → lineWidth lines < 256.
Proof.
  unfold lineWidth, nonEmptyLines.
  induction lines as [|l lines IH]; [done|].
  cbn [forallb List.filter]. intros [Hl Hrest]%andb_prop.
  destruct (negb _); [|by apply IH].
  unfold fitsBuffer in Hl. apply andb_prop in Hl as [Hlen _].
  apply Nat.ltb_lt in Hlen. lia.
Qed.

End FileToGrid.

(** X16.  From the file to the grid.  For a file whose lines all fit the
    buffer of [getline] (fewer than 256 characters, no NUL), with at least
    one non-empty line, all non-empty lines of the same length, and fewer
    than 2^31 of them, read over rectangular storage: the grid has one row
    per non-empty line and one column per character, it is rectangular,
    and the cell of row r and column c is a wall exactly when character c
    of the r-th non-empty line is 'X'. *)
Theorem loadFile_rectangular lines :
  forallb fitsBuffer lines = true →
  uniformLines lines = true →
  0 < lineWidth lines →
  Z.of_nat (length (nonEmptyLines lines)) < 2 ^ 31 →
  ∃ g userExits,
    loadFile rectangular lines = MazeData g userExits
    ∧ wellFormed g
    ∧ sRowCount g = Z.of_nat (length (nonEmptyLines lines))
    ∧ sColumnCount g = lineWidth lines
    ∧ (∀ r c l ch,
         nonEmptyLines lines !! r = Some l →
         String.list_ascii_of_string l !! c = Some ch →
         cell (sMaze g) (Z.of_nat r) (Z.of_nat c) = Some (Ascii.eqb ch "X")).
Proof.
  intros Hfit Huniform Hwidth Hrows.
  pose proof (fitsBuffer_width lines Hfit) as Hnarrow.
  apply loadFile_grid; [exact Huniform|lia|exact Hrows].
Qed.

Lemma loadFile_rectangular_witness :
  (forallb fitsBuffer Samples.ring = true
   ∧ uniformLines Samples.ring = true
   ∧ 0 < lineWidth Samples.ring
   ∧ Z.of_nat (length (nonEmptyLines Samples.ring)) < 2 ^ 31)
  ∧ ∃ g userExits,
      loadFile rectangular Samples.ring = MazeData g userExits
      ∧ wellFormed g
      ∧ sRowCount g = Z.of_nat (length (nonEmptyLines Samples.ring))
      ∧ sColumnCount g = lineWidth Samples.ring
      ∧ (∀ r c l ch,
           nonEmptyLines Samples.ring !! r = Some l →
           String.list_ascii_of_string l !! c = Some ch →
           cell (sMaze g) (Z.of_nat r) (Z.of_nat c)
           = Some (Ascii.eqb ch "X")).
Proof.
  assert (Hf : forallb fitsBuffer Samples.ring = true) by reflexivity.
  assert (Hu : uniformLines Samples.ring = true) by reflexivity.
  assert (Hw : 0 < lineWidth Samples.ring) by reflexivity.
  assert (Hr : Z.of_nat (length (nonEmptyLines Samples.ring)) < 2 ^ 31)
    by reflexivity.
  split; [split; [exact Hf|split; [exact Hu|split; [exact Hw|exact Hr]]]|].
  exact (loadFile_rectangular Samples.ring Hf Hu Hw Hr).
Defined.

(** X17.  A file without a non-empty line: the program as written loads
    nothing (the loop of [load] is not entered, so the zero column count
    never divides), finds no opening, and stops with the too-few-openings
    error. *)
Theorem main_empty_file lines fuel :
  nonEmptyLines lines = [] → main lines fuel = InsufficientOpenings.
Proof.
  intros Hempty. unfold main, main_with, loadFile.
  rewrite readLines_closed_form.
  unfold uniformLines, lineWidth, bufferOf. rewrite Hempty. reflexivity.
Qed.

Lemma main_empty_file_witness :
  nonEmptyLines [""; ""]%string = []
  ∧ main [""; ""]%string 7 = InsufficientOpenings.
Proof.
  split; [reflexivity|]. by apply (main_empty_file [""; ""]%string 7%nat).
Defined.



(** * Single ticks on a rectangular grid *)

Section SingleTicks.

Variable g : Grid.
Variable exits : list ExitInformation.
Hypothesis Hwf : wellFormed g.

Lemma tick_blocked s :
  mode s = Advancing →
  openCell g (bot_position (bot s)) →
  isExit exits (bot_position (bot s)) = false →
  cell (sMaze g)
    (row (vadd (bot_position (bot s))
               (directionToVector (bot_direction (bot s)))))
    (column (vadd (bot_position (bot s))
                  (directionToVector (bot_direction (bot s))))) = Some true →
  List.find (λ d', guard g (bot_position (bot s)) d'
                   && isFree g (neighbour (bot_position (bot s)) d'))
            (perpendicular (bot_direction (bot s))) = None →
  tick g exits s
  = keepBacktracking {| bot := bot s; visitedLocations := visitedLocations s;
                        mode := Backtracking |}.
Proof.
  intros Hmode Hp Hexit Hwall Hfind. unfold tick. rewrite Hmode.
  unfold isExit in Hexit. rewrite Hexit. cbv zeta.
  match goal with
  | |- scan g ?p ?k = _ =>
      destruct (scan_total g Hwf p k Hp) as (n & Hn & ->)
  end.
  unfold query. rewrite Hwall.
  pose proof (branch_order (bot_direction (bot s)) n) as Hbr.
  destruct Hn as (Hpos & Hfresh & Hflags).
  rewrite (find_pointwise _ (λ d', guard g (bot_position (bot s)) d'
                    && isFree g (neighbour (bot_position (bot s)) d'))) in Hbr.
  2:{ intros d'. by rewrite Hflags, Hfresh, andb_true_r. }
  rewrite Hfind in Hbr.
  destruct (branch (bot_direction (bot s)) n) as [n' o].
  simpl in Hbr. by subst o.
Qed.

End SingleTicks.

(** X19.  The robot goes straight on while it can: with the cell ahead open,
    an Advancing tick puts the robot on that cell, keeps its heading and
    stays Advancing, whatever openings the cell it leaves has on its
    sides, and pushes one node, which records the cell the robot leaves
    and marks it as left along the heading. *)
Theorem straight_on_while_open g exits s :
  wellFormed g → mode s = Advancing →
  openCell g (bot_position (bot s)) →
  isExit exits (bot_position (bot s)) = false →
  openCell g (vadd_assign (bot_position (bot s))
                (directionToVector (bot_direction (bot s)))) →
  ∃ top,
    node_position top = bot_position (bot s)
    ∧ hasGone (bot_direction (bot s)) top = true
    ∧ tick g exits s
      = Running
          {| bot := {| bot_position :=
                         vadd_assign (bot_position (bot s))
                           (directionToVector (bot_direction (bot s)));
                       bot_direction := bot_direction (bot s) |};
             visitedLocations := top :: visitedLocations s;
             mode := Advancing |}.
Proof.
  intros Hwf Hmode Hp Hexit Hnext.
  destruct (tick_straight g exits Hwf s Hmode Hp Hexit Hnext)
    as (n & Hpos & Htick).
  exists (markWent (bot_direction (bot s)) n).
  split; [by rewrite markWent_position|].
  split; [apply markWent_hasGone|]. exact Htick.
Qed.

Lemma straight_on_while_open_witness :
  ∃ s,
    (run (gridOf Samples.dead_end_then_exit)
         (exitsOf Samples.dead_end_then_exit) 2
         (initial {| column := 1; row := 0 |} DOWN) = Running s
     ∧ bot_position (bot s) = {| column := 1; row := 2 |}
     ∧ bot_direction (bot s) = DOWN
     ∧ isFree (gridOf Samples.dead_end_then_exit) {| column := 2; row := 2 |}
       = true)
    ∧ (wellFormed (gridOf Samples.dead_end_then_exit)
       ∧ mode s = Advancing
       ∧ openCell (gridOf Samples.dead_end_then_exit) (bot_position (bot s))
       ∧ isExit (exitsOf Samples.dead_end_then_exit) (bot_position (bot s))
         = false
       ∧ openCell (gridOf Samples.dead_end_then_exit)
           (vadd_assign (bot_position (bot s))
              (directionToVector (bot_direction (bot s)))))
    ∧ ∃ top,
        node_position top = bot_position (bot s)
        ∧ hasGone (bot_direction (bot s)) top = true
        ∧ tick (gridOf Samples.dead_end_then_exit)
               (exitsOf Samples.dead_end_then_exit) s
          = Running
              {| bot := {| bot_position :=
                             vadd_assign (bot_position (bot s))
                               (directionToVector (bot_direction (bot s)));
                           bot_direction := bot_direction (bot s) |};
                 visitedLocations := top :: visitedLocations s;
                 mode := Advancing |}.
Proof.
  assert (Hwf : wellFormed (gridOf Samples.dead_end_then_exit)).
  { split; [vm_compute; reflexivity|].
    split; [unfold gridOf; simpl; repeat constructor|].
    split; vm_compute; reflexivity. }
  eexists.
  split; [split; [vm_compute; reflexivity|split; [reflexivity|split;
            [reflexivity|vm_compute; reflexivity]]]|].
  match goal with
  | |- (_ ∧ ?A ∧ ?B ∧ ?C ∧ ?D) ∧ _ =>
      assert (Hm : A) by reflexivity;
      assert (Hp : B)
        by (split; [vm_compute; discriminate|];
            split; [vm_compute; discriminate|vm_compute; reflexivity]);
      assert (He : C) by (vm_compute; reflexivity);
      assert (Hn : D)
        by (split; [vm_compute; discriminate|];
            split; [vm_compute; discriminate|vm_compute; reflexivity])
  end.
  split; [split; [exact Hwf|split; [exact Hm|split; [exact Hp|split;
            [exact He|exact Hn]]]]|].
  exact (straight_on_while_open _ _ _ Hwf Hm Hp He Hn).
Defined.

(** X20.  A robot that is blocked and has no free perpendicular cell does not
    move on that tick: with an empty stack (it is still on its entrance)
    the run ends with Stuck, otherwise the engine starts to step back. *)
Theorem blocked_without_branch g exits s :
  wellFormed g → mode s = Advancing →
  openCell g (bot_position (bot s)) →
  isExit exits (bot_position (bot s)) = false →
  cell (sMaze g)
    (row (vadd (bot_position (bot s))
               (directionToVector (bot_direction (bot s)))))
    (column (vadd (bot_position (bot s))
                  (directionToVector (bot_direction (bot s))))) = Some true →
  List.find (λ d', guard g (bot_position (bot s)) d'
                   && isFree g (neighbour (bot_position (bot s)) d'))
            (perpendicular (bot_direction (bot s))) = None →
  tick g exits s
  = match visitedLocations s with
    | [] => Stuck
    | _ :: _ => Running {| bot := bot s;
                           visitedLocations := visitedLocations s;
                           mode := Backtracking |}
    end.
Proof.
  intros Hwf Hmode Hp Hexit Hwall Hfind.
  rewrite (tick_blocked g exits Hwf s Hmode Hp Hexit Hwall Hfind).
  unfold keepBacktracking. simpl. by destruct (visitedLocations s).
Qed.

Lemma blocked_without_branch_witness :
  (wellFormed (gridOf ["X X"; "XXX"; "X X"]%string)
   ∧ mode (initial {| column := 1; row := 0 |} DOWN) = Advancing
   ∧ openCell (gridOf ["X X"; "XXX"; "X X"]%string) {| column := 1; row := 0 |}
   ∧ isExit (exitsOf ["X X"; "XXX"; "X X"]%string) {| column := 1; row := 0 |}
     = false
   ∧ cell (sMaze (gridOf ["X X"; "XXX"; "X X"]%string))
       (row (vadd {| column := 1; row := 0 |} (directionToVector DOWN)))
       (column (vadd {| column := 1; row := 0 |} (directionToVector DOWN)))
     = Some true
   ∧ List.find
       (λ d', guard (gridOf ["X X"; "XXX"; "X X"]%string)
                {| column := 1; row := 0 |} d'
              && isFree (gridOf ["X X"; "XXX"; "X X"]%string)
                   (neighbour {| column := 1; row := 0 |} d'))
       (perpendicular DOWN) = None)
  ∧ tick (gridOf ["X X"; "XXX"; "X X"]%string)
         (exitsOf ["X X"; "XXX"; "X X"]%string)
         (initial {| column := 1; row := 0 |} DOWN) = Stuck.
Proof.
  assert (Hwf : wellFormed (gridOf ["X X"; "XXX"; "X X"]%string)).
  { split; [vm_compute; reflexivity|].
    split; [unfold gridOf; simpl; repeat constructor|].
    split; vm_compute; reflexivity. }
  assert (Hp : openCell (gridOf ["X X"; "XXX"; "X X"]%string)
                 {| column := 1; row := 0 |}).
  { split; [vm_compute; discriminate|]. split; [vm_compute; discriminate|].
    vm_compute. reflexivity. }
  assert (He : isExit (exitsOf ["X X"; "XXX"; "X X"]%string)
                 {| column := 1; row := 0 |} = false)
    by (vm_compute; reflexivity).
  assert (Hw : cell (sMaze (gridOf ["X X"; "XXX"; "X X"]%string))
       (row (vadd {| column := 1; row := 0 |} (directionToVector DOWN)))
       (column (vadd {| column := 1; row := 0 |} (directionToVector DOWN)))
     = Some true) by (vm_compute; reflexivity).
  assert (Hf : List.find
       (λ d', guard (gridOf ["X X"; "XXX"; "X X"]%string)
                {| column := 1; row := 0 |} d'
              && isFree (gridOf ["X X"; "XXX"; "X X"]%string)
                   (neighbour {| column := 1; row := 0 |} d'))
       (perpendicular DOWN) = None).
  { cbv [perpendicular List.find]. lazy. reflexivity. }
  split; [split; [exact Hwf|split; [reflexivity|split; [exact Hp|split;
            [exact He|split; [exact Hw|exact Hf]]]]]|].
  exact (blocked_without_branch _ _ (initial {| column := 1; row := 0 |} DOWN)
           Hwf eq_refl Hp He Hw Hf).
Defined.
